(** * APITable MCP server: a shallow embedding of [src/index.ts] and
      [src/apitableService.ts], and the properties of its specification.

    Layout: string and date helpers; the JavaScript values and the
    [ApitableService] methods; the tool actions of [index.ts] in a monad of
    exceptions and logged calls; a concrete environment and remote; then
    the properties, and their instances at concrete inputs.

    Conventions of the embedding.
    - A JavaScript string is the list of the bytes of its UTF-8 encoding
      (Rocq's [string]); this is exact for well-formed strings, which is
      what JSON decoding produces.
    - A JavaScript number is kept abstract (class [JsEnv]): the program
      never computes with numbers, it only prints and converts them.
    - A JavaScript object is the association list of its own enumerable
      properties in enumeration order: array indices first, in ascending
      order, then the other names in the order of their creation.  Its
      prototype is [Object.prototype], whose members a read [o[k]] finds
      when [o] has no own property [k].
      A function of [Object.prototype], which such a read may find, is
      not data: it is kept apart from the values ([property]).
    - Data that crosses the remote boundary has its declared TypeScript
      type ([ResponseVO], [FieldSchemaVO]), and the arguments of an action
      the type its input schema declares; ill-typed data is not modelled.
    - A thrown exception is an explicit result ([inl e]); [console.error]
      diagnostics are not modelled. *)

From Stdlib Require Import String Ascii List ZArith Lia Bool.
Import ListNotations.
Local Open Scope list_scope.
Local Open Scope string_scope.
#[local] Set Warnings "-register-all".

(** ** Strings *)

Module Str.

Definition dquote : ascii := "034"%char.
Definition backslash : ascii := "092"%char.

Definition of_char (c : ascii) : string := String c EmptyString.

Definition hex_digit (upper : bool) (n : nat) : ascii :=
  if Nat.ltb n 10 then ascii_of_nat (48 + n)
  else ascii_of_nat ((if upper then 55 else 87) + n).

Definition hex2 (upper : bool) (n : nat) : string :=
  String (hex_digit upper (Nat.div n 16))
    (String (hex_digit upper (Nat.modulo n 16)) EmptyString).

(** [s.split(sep)] for a one-character separator: never the empty array. *)
Fixpoint split (sep : ascii) (s : string) : list string :=
  match s with
  | EmptyString => [EmptyString]
  | String c rest =>
      if Ascii.eqb c sep then EmptyString :: split sep rest
      else match split sep rest with
           | seg :: segs => String c seg :: segs
           | [] => [of_char c]
           end
  end.

(** [arr.join(sep)] on an array of strings. *)
Definition join (sep : string) (l : list string) : string := String.concat sep l.

(** [arr.pop()]: the last element, [undefined] on the empty array. *)
Fixpoint pop {A : Type} (l : list A) : option A :=
  match l with
  | [] => None
  | [x] => Some x
  | _ :: rest => pop rest
  end.

(** [s.startsWith(p)]. *)
Fixpoint starts_with (p s : string) : bool :=
  match p, s with
  | EmptyString, _ => true
  | String a p', String b s' => Ascii.eqb a b && starts_with p' s'
  | String _ _, EmptyString => false
  end.

(** The character of the last decimal digit of [n]. *)
Definition digit_char (n : N) : ascii := ascii_of_N (48 + N.modulo n 10).

(** Decimal digits of a natural number, least significant digit last. *)
Fixpoint digits_fuel (fuel : nat) (n : N) (acc : string) : string :=
  match fuel with
  | O => acc
  | S fuel' =>
      let acc' := String (digit_char n) acc in
      if N.ltb n 10 then acc' else digits_fuel fuel' (N.div n 10) acc'
  end.

Definition of_N (n : N) : string := digits_fuel (S (N.to_nat (N.log2 n))) n EmptyString.

(** The decimal text of an integer, as JavaScript prints an integral
    number below 10^21. *)
Definition of_Z (z : Z) : string :=
  match z with
  | Z0 => "0"
  | Zpos p => of_N (Npos p)
  | Zneg p => "-" ++ of_N (Npos p)
  end.

(** The value of a string of decimal digits read after [acc]. *)
Fixpoint digits_value (s : string) (acc : N) : option N :=
  match s with
  | EmptyString => Some acc
  | String c rest =>
      let n := N_of_ascii c in
      if N.leb 48 n && N.leb n 57 then digits_value rest (10 * acc + (n - 48))
      else None
  end.

(** The array index a property name stands for: the name is the decimal
    text, without sign or leading zero, of an integer below [2^32 - 1]. *)
Definition array_index (k : string) : option N :=
  match k with
  | EmptyString => None
  | String c rest =>
      if Ascii.eqb c "0"%char && negb (String.eqb rest EmptyString) then None
      else match digits_value k 0 with
           | Some n => if N.leb n 4294967294 then Some n else None
           | None => None
           end
  end.

(** [n] printed in at least [w] digits, zero padded on the left. *)
Fixpoint pad (w : nat) (n : N) : string :=
  match w with
  | O => EmptyString
  | S w' => pad w' (N.div n 10) ++ of_char (digit_char n)
  end.

End Str.

(** ** Dates: the part of [Date] the program uses *)

Module JsDate.

Local Open Scope Z_scope.

Definition msPerDay : Z := 86400000.

(** The largest time value a [Date] holds ([TimeClip]). *)
Definition maxTime : Z := 8640000000000000.

(** Day number (days since 1970-01-01) of a civil date of the proleptic
    Gregorian calendar, [m] in 1..12. *)
Definition days_from_civil (y m d : Z) : Z :=
  let y' := if m <=? 2 then y - 1 else y in
  let era := y' / 400 in
  let yoe := y' - era * 400 in
  let mp := (m + 9) mod 12 in
  let doy := (153 * mp + 2) / 5 + d - 1 in
  let doe := yoe * 365 + yoe / 4 - yoe / 100 + doy in
  era * 146097 + doe - 719468.

(** Year, month (1..12) and day of the month of a day number. *)
Definition civil_from_days (z : Z) : Z * Z * Z :=
  let z' := z + 719468 in
  let era := z' / 146097 in
  let doe := z' - era * 146097 in
  let yoe := (doe - doe / 1460 + doe / 36524 - doe / 146096) / 365 in
  let y := yoe + era * 400 in
  let doy := doe - (365 * yoe + yoe / 4 - yoe / 100) in
  let mp := (5 * doy + 2) / 153 in
  let d := doy - (153 * mp + 2) / 5 + 1 in
  let m := if mp <? 10 then mp + 3 else mp - 9 in
  (if m <=? 2 then y + 1 else y, m, d).

Definition is_leap (y : Z) : bool :=
  ((y mod 4 =? 0) && negb (y mod 100 =? 0)) || (y mod 400 =? 0).

Definition days_in_month (y m : Z) : Z :=
  if m =? 2 then (if is_leap y then 29 else 28)
  else if (m =? 4) || (m =? 6) || (m =? 9) || (m =? 11) then 30
  else 31.

Definition digit (c : ascii) : option Z :=
  let n := Z.of_nat (nat_of_ascii c) in
  if (48 <=? n) && (n <=? 57) then Some (n - 48) else None.

(** The value of a string of decimal digits read after [acc]. *)
Fixpoint digits (s : string) (acc : Z) : option Z :=
  match s with
  | EmptyString => Some acc
  | String c rest =>
      match digit c with
      | Some d => digits rest (10 * acc + d)
      | None => None
      end
  end.

(** [Date.parse] on the date-only form [YYYY-MM-DD] of the ECMAScript
    date-time string format, which is read as UTC midnight; [None] on
    any other string. *)
Definition parse_date_only (s : string) : option Z :=
  if Nat.eqb (String.length s) 10
     && String.eqb (String.substring 4 1 s) "-"
     && String.eqb (String.substring 7 1 s) "-"
  then
    match digits (String.substring 0 4 s) 0,
          digits (String.substring 5 2 s) 0,
          digits (String.substring 8 2 s) 0 with
    | Some y, Some m, Some d =>
        if (1 <=? m) && (m <=? 12) && (1 <=? d) && (d <=? days_in_month y m)
        then Some (days_from_civil y m d * msPerDay)
        else None
    | _, _, _ => None
    end
  else None.

Definition pad (w : nat) (n : Z) : string := Str.pad w (Z.to_N n).

(** [Date.prototype.toISOString] of a valid time value. *)
Definition toISOString (t : Z) : string :=
  let day := t / msPerDay in
  let ms := t mod msPerDay in
  let '(y, m, d) := civil_from_days day in
  let year :=
    if (0 <=? y) && (y <=? 9999) then pad 4 y
    else ((if Z.ltb y 0 then "-" else "+") ++ pad 6 (Z.abs y))%string in
  (year ++ "-" ++ pad 2 m ++ "-" ++ pad 2 d
     ++ "T" ++ pad 2 (ms / 3600000) ++ ":" ++ pad 2 (ms / 60000 mod 60)
     ++ ":" ++ pad 2 (ms / 1000 mod 60) ++ "." ++ pad 3 (ms mod 1000) ++ "Z")%string.

(** The shape [YYYY-MM-DDTHH:mm:ss.sssZ] with a four-digit year, or the
    expanded year form with a sign and six digits. *)
Definition is_digit (c : ascii) : bool :=
  match digit c with Some _ => true | None => false end.

Fixpoint matches (pattern s : string) : bool :=
  match pattern, s with
  | EmptyString, EmptyString => true
  | String p pattern', String c s' =>
      (if Ascii.eqb p "d" then is_digit c else Ascii.eqb p c) && matches pattern' s'
  | _, _ => false
  end.

Definition is_iso_utc (s : string) : bool :=
  matches "dddd-dd-ddTdd:dd:dd.dddZ" s
  || matches "+dddddd-dd-ddTdd:dd:dd.dddZ" s
  || matches "-dddddd-dd-ddTdd:dd:dd.dddZ" s.

End JsDate.

(** ** The JavaScript environment the program runs in *)

(** What the host provides and the program only calls: numbers with their
    printing and conversions, the WHATWG URL parser, the date parser for
    strings outside the ECMAScript date-time format, and the clock. *)
Class JsEnv := {
  number : Type;
  (** [Number::toString(n)], radix 10. *)
  Number_toString : number -> string;
  (** Neither [NaN] nor an infinity. *)
  Number_isFinite : number -> bool;
  (** [ToBoolean(n)]: false on [+0], [-0] and [NaN]. *)
  Number_truthy : number -> bool;
  Number_NaN : number;
  Number_ofZ : Z -> number;
  (** [StringToNumber(s)], the conversion behind [Number(s)]. *)
  StringToNumber : string -> number;
  (** [String(f)] for the function [Object.prototype] holds under a name:
      its text is the host's. *)
  Function_toString : string -> string;
  (** [new URL(s).pathname], [None] when the constructor throws. *)
  URL_pathname : string -> option string;
  (** [Date.parse] on a string that is not a date-only ISO form; [None]
      stands for [NaN]. *)
  Date_parse_other : string -> option Z;
  (** [new Date().getTime()], in milliseconds since the epoch. *)
  Date_now : Z;
}.

(** A thrown value: an [Error] with its message, or anything else. *)
Inductive exn : Type :=
| JsError (message : string)
| NonError.

(** The result of an expression that may throw. *)
Definition result (A : Type) : Type := (exn + A)%type.

Section Program.

Context `{JsEnv}.

(** ** JavaScript values (JSON data plus [undefined]) *)

Inductive value : Type :=
| VUndefined
| VNull
| VBool (b : bool)
| VNum (n : number)
| VStr (s : string)
| VArr (xs : list value)
| VObj (props : list (string * value)).

Definition object : Type := list (string * value).

(** The own property [k] of [o], if it has one. *)
Fixpoint get {A : Type} (k : string) (o : list (string * A)) : option A :=
  match o with
  | [] => None
  | (k', v) :: rest => if String.eqb k' k then Some v else get k rest
  end.

(** The names under which [Object.prototype] holds a function. *)
Definition Object_prototype_functions : list string :=
  [ "constructor"; "__defineGetter__"; "__defineSetter__"; "hasOwnProperty";
    "__lookupGetter__"; "__lookupSetter__"; "isPrototypeOf";
    "propertyIsEnumerable"; "toString"; "valueOf"; "toLocaleString" ].

(** What a read [o[k]] finds: a value, or one of the functions of
    [Object.prototype], which is not data. *)
Inductive property : Type :=
| Value (v : value)
| Method (name : string).

(** Whether [Object.prototype] has a member under the name [k]. *)
Definition inherited (k : string) : bool :=
  String.eqb k "__proto__" || existsb (String.eqb k) Object_prototype_functions.

(** [o[k]] for a name computed at run time: the own property, else the
    member [Object.prototype] has under that name ([__proto__] reads as
    [Object.prototype] itself, an object without enumerable properties),
    else [undefined]. *)
Definition read (k : string) (o : object) : property :=
  match get k o with
  | Some v => Value v
  | None =>
      if String.eqb k "__proto__" then Value (VObj [])
      else if existsb (String.eqb k) Object_prototype_functions then Method k
      else Value VUndefined
  end.

(** [o.k] for a name that [Object.prototype] does not have: the own
    property, [undefined] when absent. *)
Definition get_value (k : string) (o : object) : value :=
  match get k o with Some v => v | None => VUndefined end.

(** The value of the own property [k] becomes [v], in its place. *)
Fixpoint update {A : Type} (k : string) (v : A) (o : list (string * A))
  : list (string * A) :=
  match o with
  | [] => []
  | (k', v') :: rest =>
      if String.eqb k' k then (k', v) :: rest else (k', v') :: update k v rest
  end.

(** A new property whose name is the array index [n] takes its place
    among the array indices, which come first and in ascending order. *)
Fixpoint insert_index {A : Type} (n : N) (k : string) (v : A) (o : list (string * A))
  : list (string * A) :=
  match o with
  | [] => [(k, v)]
  | (k', v') :: rest =>
      match Str.array_index k' with
      | Some n' =>
          if N.ltb n' n then (k', v') :: insert_index n k v rest
          else (k, v) :: o
      | None => (k, v) :: o
      end
  end.

(** [CreateDataProperty(o, k, v)], what an object literal and a spread do
    for each property: an existing property keeps its place, a new one
    comes last unless its name is an array index. *)
Definition define {A : Type} (k : string) (v : A) (o : list (string * A))
  : list (string * A) :=
  match get k o with
  | Some _ => update k v o
  | None =>
      match Str.array_index k with
      | Some n => insert_index n k v o
      | None => (o ++ [(k, v)])%list
      end
  end.

(** [o[k] = v] on an object whose prototype is [Object.prototype]: as
    [define], except that the name [__proto__], when it is not an own
    property, reaches the setter of [Object.prototype], which creates no
    property: it replaces the prototype when [v] is an object and does
    nothing when [v] is another value, and neither changes the own
    properties, now or at a later assignment.  (Only [null] would take
    the setter away; the program assigns fragments, which are objects,
    cells, which are never [null], and arrays of attachments.) *)
Definition set {A : Type} (k : string) (v : A) (o : list (string * A))
  : list (string * A) :=
  match get k o with
  | Some _ => update k v o
  | None => if String.eqb k "__proto__" then o else define k v o
  end.

(** [{...a, ...b}]. *)
Definition spread {A : Type} (a b : list (string * A)) : list (string * A) :=
  fold_left (fun acc kv => define (fst kv) (snd kv) acc) b a.

(** [const {k, ...rest} = o]: the properties other than [k]. *)
Definition without {A : Type} (k : string) (o : list (string * A)) : list (string * A) :=
  filter (fun kv => negb (String.eqb (fst kv) k)) o.

(** The [TypeError] of [OrdinaryToPrimitive] when neither [toString] nor
    [valueOf] gives a primitive value. *)
Definition not_primitive : exn :=
  JsError "Cannot convert object to primitive value".

(** The results of a list of evaluations done from left to right: the
    first exception, if any, is the outcome. *)
Fixpoint sequence {A : Type} (l : list (result A)) : result (list A) :=
  match l with
  | [] => inr []
  | inl e :: _ => inl e
  | inr x :: rest =>
      match sequence rest with
      | inl e => inl e
      | inr xs => inr (x :: xs)
      end
  end.

(** [String(v)].  An array is joined ([Array.prototype.toString]).  An
    object is converted by [OrdinaryToPrimitive]: with no own [toString]
    it inherits the one of [Object.prototype]; an own [toString] is data,
    not a function, and so is skipped, [valueOf] (own and not a function,
    or inherited and returning the object) gives no primitive value
    either, and the conversion throws. *)
Fixpoint ToString (v : value) : result string :=
  match v with
  | VUndefined => inr "undefined"
  | VNull => inr "null"
  | VBool b => inr (if b then "true" else "false")
  | VNum n => inr (Number_toString n)
  | VStr s => inr s
  | VArr xs =>
      match sequence (map (fun x => match x with
                                    | VUndefined | VNull => inr EmptyString
                                    | _ => ToString x
                                    end) xs) with
      | inl e => inl e
      | inr elements => inr (Str.join "," elements)
      end
  | VObj props =>
      match get "toString" props with
      | Some _ => inl not_primitive
      | None => inr "[object Object]"
      end
  end.

(** [Boolean(v)]. *)
Definition ToBoolean (v : value) : bool :=
  match v with
  | VUndefined | VNull => false
  | VBool b => b
  | VNum n => Number_truthy n
  | VStr s => negb (String.eqb s EmptyString)
  | VArr _ | VObj _ => true
  end.

(** [Number(v)].  On an array or an object [valueOf] gives no primitive
    value, so the number is read from the string [toString] gives, and
    the conversion throws where that one does. *)
Definition ToNumber (v : value) : result number :=
  match v with
  | VUndefined => inr Number_NaN
  | VNull => inr (Number_ofZ 0)
  | VBool b => inr (Number_ofZ (if b then 1 else 0))
  | VNum n => inr n
  | VStr s => inr (StringToNumber s)
  | VArr _ | VObj _ =>
      match ToString v with
      | inl e => inl e
      | inr s => inr (StringToNumber s)
      end
  end.

(** ** [JSON.stringify] *)

Definition quote_char (c : ascii) : string :=
  let n := nat_of_ascii c in
  if Ascii.eqb c Str.dquote then String Str.backslash (Str.of_char Str.dquote)
  else if Ascii.eqb c Str.backslash then String Str.backslash (Str.of_char Str.backslash)
  else if Nat.eqb n 8 then String Str.backslash "b"
  else if Nat.eqb n 9 then String Str.backslash "t"
  else if Nat.eqb n 10 then String Str.backslash "n"
  else if Nat.eqb n 12 then String Str.backslash "f"
  else if Nat.eqb n 13 then String Str.backslash "r"
  else if Nat.ltb n 32 then String Str.backslash ("u00" ++ Str.hex2 false n)
  else Str.of_char c.

Fixpoint quote_chars (s : string) : string :=
  match s with
  | EmptyString => EmptyString
  | String c rest => quote_char c ++ quote_chars rest
  end.

Definition QuoteJSONString (s : string) : string :=
  String Str.dquote (quote_chars s ++ Str.of_char Str.dquote).

(** [None] is the [undefined] that [JSON.stringify(undefined)] returns. *)
Fixpoint JSON_stringify (v : value) : option string :=
  match v with
  | VUndefined => None
  | VNull => Some "null"
  | VBool b => Some (if b then "true" else "false")
  | VNum n => Some (if Number_isFinite n then Number_toString n else "null")
  | VStr s => Some (QuoteJSONString s)
  | VArr xs =>
      Some ("[" ++ Str.join ","
                    (map (fun x => match JSON_stringify x with
                                   | Some s => s
                                   | None => "null"
                                   end) xs) ++ "]")
  | VObj props =>
      Some ("{" ++ Str.join ","
                    (flat_map (fun kv => let '(k, x) := kv in
                                         match JSON_stringify x with
                                         | Some s => [QuoteJSONString k ++ ":" ++ s]
                                         | None => []
                                         end) props) ++ "}")
  end.

(** A [JSON.stringify] result used where a string is expected. *)
Definition string_of_json (j : option string) : string :=
  match j with Some s => s | None => "undefined" end.

(** ** [encodeURIComponent] *)

Definition uri_unreserved (c : ascii) : bool :=
  let n := nat_of_ascii c in
  (Nat.leb 65 n && Nat.leb n 90) || (Nat.leb 97 n && Nat.leb n 122)
  || (Nat.leb 48 n && Nat.leb n 57)
  || existsb (Ascii.eqb c)
       ["-"; "_"; "."; "!"; "~"; "*"; "'"; "("; ")"]%char.

Fixpoint encodeURIComponent (s : string) : string :=
  match s with
  | EmptyString => EmptyString
  | String c rest =>
      (if uri_unreserved c then Str.of_char c
       else String "%" (Str.hex2 true (nat_of_ascii c)))
      ++ encodeURIComponent rest
  end.

(** ** [ApitableService.buildQueryString] *)

(** The test of one name of [requiredParams]: [params[param]] is
    [undefined], [null] or the empty string. *)
Definition missing_param (params : object) (param : string) : bool :=
  match read param params with
  | Value VUndefined | Value VNull => true
  | Value (VStr s) => String.eqb s EmptyString
  | _ => false
  end.

(** What one entry of [params] pushes on [queryParams]. *)
Definition query_param (key : string) (v : value) : list string :=
  match v with
  | VUndefined | VNull => []
  | VArr [] => []
  | VArr _ | VObj _ =>
      [encodeURIComponent key ++ "="
         ++ encodeURIComponent (string_of_json (JSON_stringify v))]
  | VStr EmptyString => []
  | VStr s => [encodeURIComponent key ++ "=" ++ encodeURIComponent s]
  | VBool b =>
      [encodeURIComponent key ++ "="
         ++ encodeURIComponent (if b then "true" else "false")]
  | VNum n => [encodeURIComponent key ++ "=" ++ encodeURIComponent (Number_toString n)]
  end.

Definition buildQueryString (params : object) (requiredParams : list string)
  : result string :=
  match find (missing_param params) requiredParams with
  | Some param => inl (JsError ("Query parameter '" ++ param ++ "' is required."))
  | None =>
      let queryParams := flat_map (fun kv => query_param (fst kv) (snd kv)) params in
      inr (match queryParams with
           | [] => EmptyString
           | _ => "?" ++ Str.join "&" queryParams
           end)
  end.

(** ** Field schemas *)

(** Modelled from the spec: [SelectFieldOptionVO] of [types.ts], which is
    not among the sources; the data model gives select options as
    [{id, name}], the two keys the program reads. *)
Record SelectFieldOptionVO := {
  option_id : string;
  option_name : string;
}.

(** Modelled from the spec: the [property] of a [FieldSchemaVO] of
    [types.ts] (not among the sources), the type-specific metadata of the
    data model: [options] for select types and [max], a number, for
    Rating, the two keys the program reads, each possibly absent. *)
Record FieldProperty := {
  prop_options : option (list SelectFieldOptionVO);
  prop_max : option number;
}.

(** Modelled from the spec: [FieldSchemaVO] of [types.ts] (not among the
    sources), the Field Schema [{name, type, property?}] of the data model;
    the type tag is a string, as the program compares it. *)
Record FieldSchemaVO := {
  field_name : string;
  field_type : string;
  field_property : option FieldProperty;
}.

(** [list.includes(s)] on a list of strings. *)
Definition includes (l : list string) (s : string) : bool :=
  existsb (String.eqb s) l.

Definition str_prop (k s : string) : string * value := (k, VStr s).

(** [field.property?.options]. *)
Definition options_of (field : FieldSchemaVO) : option (list SelectFieldOptionVO) :=
  match field_property field with
  | Some p => prop_options p
  | None => None
  end.

Definition option_names (opts : list SelectFieldOptionVO) : value :=
  VArr (map (fun o => VStr (option_name o)) opts).

Definition attachment_keywords : value :=
  VObj [ str_prop "type" "array";
         ("items", VObj [
            ("properties", VObj [
               ("token", VObj [str_prop "type" "string"]);
               ("name", VObj [str_prop "type" "string"]);
               ("mimeType", VObj [str_prop "type" "string"]);
               ("url", VObj [str_prop "type" "string"]);
               ("size", VObj [str_prop "type" "number"]);
               ("height", VObj [str_prop "type" "number"; ("nullable", VBool true)]);
               ("width", VObj [str_prop "type" "number"; ("nullable", VBool true)]) ]) ]) ].

(** [_getKeywordByFieldType]: [None] is the [null] it returns for a field
    it does not support. *)
Definition _getKeywordByFieldType (field : FieldSchemaVO) : option value :=
  let t := field_type field in
  if includes ["Text"; "SingleText"; "Email "; "URL"; "Phone"] t then
    Some (VObj [str_prop "type" "string"])
  else if String.eqb t "Checkbox" then
    Some (VObj [str_prop "type" "boolean"])
  else if includes ["Number"; "Currency"; "Percent"] t then
    Some (VObj [str_prop "type" "number"])
  else if String.eqb t "Rating" then
    let description :=
      match field_property field with
      | Some {| prop_max := Some m |} =>
          "Rating from 0 to " ++ Number_toString m ++ ". if over "
            ++ Number_toString m ++ ", reduce to " ++ Number_toString m
      | _ => EmptyString
      end in
    Some (VObj [str_prop "type" "integer"; str_prop "description" description])
  else if String.eqb t "DateTime" then
    Some (VObj [ str_prop "type" "string";
                 str_prop "description"
                   "ISO 8601 date-time format, with UTC timezone. Example: 2022-01-01T12:00:00Z" ])
  else if String.eqb t "SingleSelect" then
    Some (VObj [ str_prop "type" "string";
                 ("enum", match options_of field with
                          | Some opts => option_names opts
                          | None => VUndefined
                          end);
                 str_prop "description"
                   "Single selection from the provided options. If no options are available, return a null value." ])
  else
    match (if String.eqb t "MultiSelect" then options_of field else None) with
    | Some opts =>
        Some (VObj [ str_prop "type" "array";
                     ("items", VObj [ str_prop "type" "string";
                                      ("enum", option_names opts);
                                      str_prop "description" "one or more selections" ]) ])
    | None =>
        if String.eqb t "Attachment" then Some attachment_keywords
        else None
    end.

(** The object [schema] of [getFieldsJSONSchema]. *)
Record JSONSchema := {
  schema_type : string;
  properties : object;
  additionalProperties : bool;
  required : list string;
}.

Record FieldFormatJSONSchema := {
  format_type : string;
  json_schema_name : string;
  json_schema_schema : JSONSchema;
  json_schema_strict : bool;
}.

(** One turn of the [fields.forEach] loop of [getFieldsJSONSchema]. *)
Definition add_field (schema : JSONSchema) (field : FieldSchemaVO) : JSONSchema :=
  match _getKeywordByFieldType field with
  | Some keywordsForField =>
      {| schema_type := schema_type schema;
         properties := set (field_name field) keywordsForField (properties schema);
         additionalProperties := additionalProperties schema;
         required := (required schema ++ [field_name field])%list |}
  | None => schema
  end.

Definition getFieldsJSONSchema (fields : list FieldSchemaVO) : FieldFormatJSONSchema :=
  let schema :=
    fold_left add_field fields
      {| schema_type := "object"; properties := [];
         additionalProperties := false; required := [] |} in
  {| format_type := "json_schema";
     json_schema_name := "fields_in_datasheet";
     json_schema_schema := schema;
     json_schema_strict := true |}.

(** The document as the value [JSON.stringify] is applied to. *)
Definition FieldFormatJSONSchema_value (d : FieldFormatJSONSchema) : value :=
  let s := json_schema_schema d in
  VObj [ str_prop "type" (format_type d);
         ("json_schema",
          VObj [ str_prop "name" (json_schema_name d);
                 ("schema",
                  VObj [ str_prop "type" (schema_type s);
                         ("properties", VObj (properties s));
                         ("additionalProperties", VBool (additionalProperties s));
                         ("required", VArr (map VStr (required s))) ]);
                 ("strict", VBool (json_schema_strict d)) ]) ].

(** ** Cell values: [_getCellValueByFieldType] *)

(** [Date.parse]: the date-only ISO form is fixed by ECMAScript, the
    rest is the host's. *)
Definition Date_parse (s : string) : option Z :=
  match JsDate.parse_date_only s with
  | Some t => Some t
  | None => Date_parse_other s
  end.

(** [new Date(s)]: its time value, [None] for an invalid date. *)
Definition new_Date (s : string) : option Z :=
  match Date_parse s with
  | Some t => if Z.leb (Z.abs t) JsDate.maxTime then Some t else None
  | None => None
  end.

(** [date.toISOString()], which throws a [RangeError] on an invalid date. *)
Definition Date_toISOString (date : option Z) : result string :=
  match date with
  | Some t => inr (JsDate.toISOString t)
  | None => inl (JsError "Invalid time value")
  end.

(** [options?.find(option => option.name === optionName)]: strict
    equality holds only for a string equal to the name. *)
Definition find_option (field : FieldSchemaVO) (optionName : value)
  : option SelectFieldOptionVO :=
  match options_of field, optionName with
  | Some opts, VStr s => find (fun o => String.eqb (option_name o) s) opts
  | _, _ => None
  end.

Definition _getCellValueByFieldType (field : FieldSchemaVO) (fieldValue : value)
  : result value :=
  let t := field_type field in
  if String.eqb t "Text" || String.eqb t "SingleText" || String.eqb t "Email"
     || String.eqb t "URL" || String.eqb t "Phone" || String.eqb t "SingleSelect"
  then
    match ToString fieldValue with
    | inr s => inr (VStr s)
    | inl e => inl e
    end
  else if String.eqb t "Checkbox" then inr (VBool (ToBoolean fieldValue))
  else if includes ["Number"; "Currency"; "Percent"; "Rating"] t then
    match ToNumber fieldValue with
    | inr n => inr (VNum n)
    | inl e => inl e
    end
  else
    match (if String.eqb t "DateTime" then fieldValue else VUndefined) with
    | VStr s =>
        if negb (String.eqb s EmptyString) then
          match Date_toISOString (new_Date s) with
          | inr iso => inr (VStr iso)
          | inl e => inl e
          end
        else inr VNull
    | _ =>
        if String.eqb t "MultiSelect" then
          match fieldValue with
          | VArr optionNames =>
              inr (VArr (flat_map (fun optionName =>
                                     match find_option field optionName with
                                     | Some o => [VStr (option_id o)]
                                     | None => []
                                     end) optionNames))
          | VStr _ =>
              inr (VArr (match find_option field fieldValue with
                         | Some o => [VStr (option_id o)]
                         | None => []
                         end))
          | _ => inr VNull
          end
        else inr VNull
    end.

(** [_getCellValueByFieldType] when [fieldValue] is a function of
    [Object.prototype]: its string is the host's text, it is truthy, its
    number is read from that text, and it is neither a string nor an
    array. *)
Definition _getCellValueOfFunction (field : FieldSchemaVO) (name : string) : value :=
  let t := field_type field in
  if String.eqb t "Text" || String.eqb t "SingleText" || String.eqb t "Email"
     || String.eqb t "URL" || String.eqb t "Phone" || String.eqb t "SingleSelect"
  then VStr (Function_toString name)
  else if String.eqb t "Checkbox" then VBool true
  else if includes ["Number"; "Currency"; "Percent"; "Rating"] t then
    VNum (StringToNumber (Function_toString name))
  else VNull.

(** [_getCellValueByFieldType] on what a read has found. *)
Definition cell_value (field : FieldSchemaVO) (fieldValue : property) : result value :=
  match fieldValue with
  | Value v => _getCellValueByFieldType field v
  | Method name => inr (_getCellValueOfFunction field name)
  end.

(** One turn of the [fieldsSchema.forEach] loop of
    [convertFieldValuesToCellFormat]. *)
Definition add_cell (fieldValues : object) (cells : result object)
    (fieldschema : FieldSchemaVO) : result object :=
  match cells with
  | inl e => inl e
  | inr cells =>
      match read (field_name fieldschema) fieldValues with
      | Value VUndefined => inr cells
      | fieldValue =>
          match cell_value fieldschema fieldValue with
          | inl e => inl e
          | inr VNull => inr cells
          | inr cellValue => inr (set (field_name fieldschema) cellValue cells)
          end
      end
  end.

Definition convertFieldValuesToCellFormat (fieldsSchema : list FieldSchemaVO)
    (fieldValues : object) : result object :=
  fold_left (add_cell fieldValues) fieldsSchema (inr []).

(** ** Requests, responses and the remote service *)

Definition Blob : Type := string.

Inductive body : Type :=
| NoBody
| TextBody (s : string)
| FormData (entries : list (string * Blob * string)).

Record request := {
  req_url : string;
  req_method : string;
  req_headers : list (string * string);
  req_body : body;
}.

(** A [fetch] response; the body readers may reject. *)
Record Response (J : Type) := {
  ok : bool;
  statusText : string;
  json : result J;
  text : result string;
  blob : result Blob;
}.
Arguments ok {J}.
Arguments statusText {J}.
Arguments json {J}.
Arguments text {J}.
Arguments blob {J}.

(** Modelled from the spec: [ResponseVO<T>] of [types.ts] (not among the
    sources), the decoded envelope of the remote API with its [success]
    marker, its [message] when present and its [data]; these are the keys
    the program reads, other keys the remote may send are not modelled. *)
Record ResponseVO (T : Type) := {
  success : bool;
  message : option string;
  data : option T;
}.
Arguments success {T}.
Arguments message {T}.
Arguments data {T}.

(** One outbound call of an invocation, and whether the remote answered
    it with success (a response, [ok], and for the API [success:true]). *)
Record call := {
  call_request : request;
  call_succeeded : bool;
}.

(** ** The monad of a tool action: exceptions and the log of calls *)

Definition M (A : Type) : Type := list call -> result A * list call.

Definition ret {A : Type} (a : A) : M A := fun log => (inr a, log).

Definition throw {A : Type} (e : exn) : M A := fun log => (inl e, log).

Definition bind {A B : Type} (m : M A) (k : A -> M B) : M B :=
  fun log =>
    match m log with
    | (inr a, log') => k a log'
    | (inl e, log') => (inl e, log')
    end.

(** [try { m } catch (error) { handler }]. *)
Definition try_catch {A : Type} (m : M A) (handler : exn -> M A) : M A :=
  fun log =>
    match m log with
    | (inr a, log') => (inr a, log')
    | (inl e, log') => handler e log'
    end.

(** An expression that may throw, inside an action. *)
Definition lift {A : Type} (r : result A) : M A := fun log => (r, log).

Notation "x <- m ;; k" := (bind m (fun x => k))
  (at level 61, m at next level, right associativity).

(** How the remote answers a request, given the calls made so far. *)
Definition responder (J : Type) : Type := list call -> request -> result (Response J).

(** [await this.fetch(url, init)]. *)
Definition fetch {J : Type} (respond : responder J) (succeeded : Response J -> bool)
    (req : request) : M (Response J) :=
  fun log =>
    let r := respond log req in
    (r, (log ++ [{| call_request := req;
                    call_succeeded := match r with
                                      | inr response => succeeded response
                                      | inl _ => false
                                      end |}])%list).

Definition api_succeeded {T : Type} (response : Response (ResponseVO T)) : bool :=
  ok response && match json response with
                 | inr responseJson => success responseJson
                 | inl _ => false
                 end.

(** Modelled from the spec: the payload types of [types.ts] (not among the
    sources) at which the actions read [data]: the spaces of [GET /spaces],
    the nodes of a node search, the fields of a datasheet and the records a
    write returns. Spaces and records are passed on as they are; a node is
    an object whose [id] the action renames. *)
Record SpacesData := { spaces : value }.
Record NodesData := { nodes : list object }.
Record FieldsData := { fields : list FieldSchemaVO }.
Record RecordsData := { records : value }.

(** The remote API, one responder for each type [fetch] is used at. *)
Record Remote := {
  remote_spaces : responder (ResponseVO SpacesData);
  remote_nodes : responder (ResponseVO NodesData);
  remote_records : responder (ResponseVO value);
  remote_fields : responder (ResponseVO FieldsData);
  remote_create : responder (ResponseVO RecordsData);
  remote_upload : responder (ResponseVO value);
  remote_file : responder unit;
}.

Variable apiKey : string.
Variable baseUrl : string.
Variable remote : Remote.

(** ** [ApitableService]: the calls *)

Record RequestInit := {
  init_method : string;
  init_headers : list (string * string);
  init_body : body;
}.

Definition GET : RequestInit :=
  {| init_method := "GET"; init_headers := []; init_body := NoBody |}.

Definition api_error {T : Type} (response : Response (ResponseVO T))
    (responseJson : ResponseVO T) : exn :=
  JsError ("APITable API Error: " ++ statusText response ++ ". Response: "
             ++ match message responseJson with
                | Some m => m
                | None => "undefined"
                end).

(** The request [fetchFromAPI] sends: caller headers are merged over
    the three default ones. *)
Definition api_request (endpoint : string) (options : RequestInit) : request :=
  {| req_url := baseUrl ++ endpoint;
     req_method := init_method options;
     req_headers :=
       spread [ ("Authorization", "Bearer " ++ apiKey);
                ("Accept", "application/json");
                ("Content-Type", "application/json") ]
              (init_headers options);
     req_body := init_body options |}.

Definition fetchFromAPI {T : Type} (respond : responder (ResponseVO T))
    (endpoint : string) (options : RequestInit) : M (ResponseVO T) :=
  response <- fetch respond api_succeeded (api_request endpoint options) ;;
  responseJson <- lift (json response) ;;
  if negb (ok response) then throw (api_error response responseJson)
  else ret responseJson.

Definition getDatasheetFieldsSchema (node_id : string) : M (ResponseVO FieldsData) :=
  if String.eqb node_id EmptyString then
    throw (JsError "The datasheet ID (node_id) is required.")
  else
    fetchFromAPI (remote_fields remote) ("/v1/datasheets/" ++ node_id ++ "/fields") GET.

Definition createDatasheetRecord (node_id : string) (cells : object)
  : M (ResponseVO RecordsData) :=
  fetchFromAPI (remote_create remote) ("/v1/datasheets/" ++ node_id ++ "/records")
    {| init_method := "POST"; init_headers := [];
       init_body :=
         TextBody (string_of_json
                     (JSON_stringify
                        (VObj [("records", VArr [VObj [("fields", VObj cells)]])]))) |}.

Definition _fetchFileViaURL (file_url : string) : M Blob :=
  if String.eqb file_url EmptyString then throw (JsError "file_url is required.")
  else
    response <- fetch (remote_file remote) ok
                  {| req_url := file_url; req_method := "GET";
                     req_headers := []; req_body := NoBody |} ;;
    if negb (ok response) then
      body_text <- lift (text response) ;;
      throw (JsError ("Fetch file error: " ++ statusText response ++ ". Response: "
                        ++ body_text))
    else lift (blob response).

(** [url.pathname.split("/").pop() ?? "file_" + new Date().getTime()]. *)
Definition file_name_of_pathname (pathname : string) : string :=
  match Str.pop (Str.split "/" pathname) with
  | Some segment => segment
  | None => "file_" ++ Str.of_Z Date_now
  end.

Definition uploadFileToSpace (node_id file_url : string) (file_name : option string)
  : M (ResponseVO value) :=
  file_name <- match file_name with
               | Some (String c rest) => ret (String c rest)
               | _ =>
                   match URL_pathname file_url with
                   | Some pathname => ret (file_name_of_pathname pathname)
                   | None => throw (JsError "Invalid URL")
                   end
               end ;;
  fileBlob <- _fetchFileViaURL file_url ;;
  response <- fetch (remote_upload remote) api_succeeded
                {| req_url := baseUrl ++ "/v1/datasheets/" ++ node_id ++ "/attachments";
                   req_method := "POST";
                   req_headers := [("Authorization", "Bearer " ++ apiKey)];
                   req_body := FormData [("file", fileBlob, file_name)] |} ;;
  responseJson <- lift (json response) ;;
  if negb (ok response) then throw (api_error response responseJson)
  else ret responseJson.

(** ** The tool actions of [index.ts] *)

Record TextContent := {
  content_type : string;
  mimeType : string;
  content_text : option string;
}.

Record CallToolResult := {
  content : list TextContent;
  isError : bool;
}.

Definition formatToolResponse (data : value) (isError : bool) : CallToolResult :=
  {| content := [ {| content_type := "text";
                     mimeType := "application/json";
                     content_text := JSON_stringify data |} ];
     isError := isError |}.

(** The objects the actions hand to [formatToolResponse]. *)
Definition failure (message : value) : value :=
  VObj [("success", VBool false); ("message", message)].

Definition succeeded_with (data : value) : value :=
  VObj [("success", VBool true); ("data", data)].

(** [error instanceof Error ? error.message : "Unknown error occurred"]. *)
Definition error_message (error : exn) : string :=
  match error with
  | JsError message => message
  | NonError => "Unknown error occurred"
  end.

(** The [catch] block every action ends with. *)
Definition on_error (error : exn) : M CallToolResult :=
  ret (formatToolResponse (failure (VStr (error_message error))) true).

(** [x || fallback] on an optional string. *)
Definition or_else (x : option string) (fallback : string) : string :=
  match x with
  | Some (String c rest) => String c rest
  | _ => fallback
  end.

(** [result.data.k]: a [TypeError] when [data] is missing. *)
Definition data_of {T : Type} (result : ResponseVO T) (k : string) : M T :=
  match data result with
  | Some d => ret d
  | None =>
      throw (JsError ("Cannot read properties of undefined (reading '" ++ k ++ "')"))
  end.

Definition value_of_string (s : option string) : value :=
  match s with Some s => VStr s | None => VUndefined end.

Definition value_of_number (n : option number) : value :=
  match n with Some n => VNum n | None => VUndefined end.

Definition list_spaces_body : M CallToolResult :=
  result <- fetchFromAPI (remote_spaces remote) "/spaces" GET ;;
  if negb (success result) then
    ret (formatToolResponse
           (failure (VStr (or_else (message result) "Failed to fetch spaces"))) true)
  else
    d <- data_of result "spaces" ;;
    ret (formatToolResponse
           (succeeded_with
              (VObj [ ("spaces", spaces d);
                      ("definitions",
                       VObj [ str_prop "id" "The workspace ID";
                              str_prop "name" "The name of the workspace";
                              str_prop "isAdmin"
                                "Indicates if the user has admin permissions in the workspace" ]) ]))
           false).

Definition list_spaces : M CallToolResult := try_catch list_spaces_body on_error.

Record search_nodes_args := {
  sn_space_id : string;
  sn_node_type : string;
  sn_query : option string;
}.

(** [const {id, ...restNodeProps} = node; {...restNodeProps, node_id: id}]. *)
Definition to_tool_node (node : object) : value :=
  VObj (define "node_id" (get_value "id" node) (without "id" node)).

Definition search_nodes_body (a : search_nodes_args) : M CallToolResult :=
  if String.eqb (sn_space_id a) EmptyString || String.eqb (sn_node_type a) EmptyString
  then throw (JsError "space_id and node_type are required.")
  else
    queryStr <- lift (buildQueryString
                        [ ("type", VStr (sn_node_type a));
                          ("query", value_of_string (sn_query a)) ] []) ;;
    result <- fetchFromAPI (remote_nodes remote)
                ("/spaces/" ++ sn_space_id a ++ "/nodes" ++ queryStr) GET ;;
    if negb (success result) then
      throw (JsError (or_else (message result) "Failed to search nodes"))
    else
      d <- data_of result "nodes" ;;
      ret (formatToolResponse (succeeded_with (VArr (map to_tool_node (nodes d)))) false).

Definition search_nodes (a : search_nodes_args) : M CallToolResult :=
  try_catch (search_nodes_body a) on_error.

Inductive sort_order : Type := asc | desc.

Record sort_item := {
  sort_field : string;
  sort_order_of : sort_order;
}.

Definition sort_item_value (i : sort_item) : value :=
  VObj [ ("field", VStr (sort_field i));
         ("order", VStr match sort_order_of i with asc => "asc" | desc => "desc" end) ].

(** The declared parameters of [list_records]. *)
Record list_records_args := {
  lr_node_id : string;
  lr_sort : option (list sort_item);
  lr_pageNum : option number;
  lr_pageSize : option number;
  lr_fields : option string;
  lr_viewId : option string;
  lr_filterByFormula : option string;
}.

(** The handler destructures [node_id, sort, pageNum, pageSize, fields,
    viewId] and builds the endpoint from them. *)
Definition list_records_endpoint (a : list_records_args) : result string :=
  match buildQueryString
          [ ("sort", match lr_sort a with
                     | Some items => VArr (map sort_item_value items)
                     | None => VUndefined
                     end);
            ("pageNum", value_of_number (lr_pageNum a));
            ("pageSize", value_of_number (lr_pageSize a));
            ("fields", value_of_string (lr_fields a));
            ("viewId", value_of_string (lr_viewId a));
            ("cellFormat", VStr "string");
            ("fieldKey", VStr "name") ] [] with
  | inr queryStr => inr ("/datasheets/" ++ lr_node_id a ++ "/records" ++ queryStr)
  | inl e => inl e
  end.

Definition list_records_body (a : list_records_args) : M CallToolResult :=
  if String.eqb (lr_node_id a) EmptyString then throw (JsError "datasheet ID is required.")
  else
    endpoint <- lift (list_records_endpoint a) ;;
    result <- fetchFromAPI (remote_records remote) endpoint GET ;;
    if negb (success result) then
      throw (JsError (or_else (message result) "Failed to list records"))
    else
      ret (formatToolResponse
             (succeeded_with (match data result with Some d => d | None => VUndefined end))
             false).

Definition list_records (a : list_records_args) : M CallToolResult :=
  try_catch (list_records_body a) on_error.

Definition get_fields_schema_body (node_id : string) : M CallToolResult :=
  if String.eqb node_id EmptyString then
    throw (JsError "The datasheet ID (node_id) is required.")
  else
    result <- getDatasheetFieldsSchema node_id ;;
    if negb (success result) then
      throw (JsError (or_else (message result) "Failed to fetch datasheet fields schema"))
    else
      d <- data_of result "fields" ;;
      ret (formatToolResponse
             (succeeded_with (FieldFormatJSONSchema_value (getFieldsJSONSchema (fields d))))
             false).

Definition get_fields_schema (node_id : string) : M CallToolResult :=
  try_catch (get_fields_schema_body node_id) on_error.

Record create_record_args := {
  cr_node_id : string;
  cr_fields : option object;
  cr_attachments_fields : option (list (string * list value));
}.

(** [attachments_fields], a record of arrays by its declared type, as an
    object. *)
Definition attachment_values (attachments_fields : list (string * list value)) : object :=
  map (fun kv => (fst kv, VArr (snd kv))) attachments_fields.

(** The [fieldsSchema.forEach] that overlays [attachments_fields].  A
    cell that is a function of [Object.prototype] is kept as [undefined]:
    the cells are only ever turned into JSON text, which leaves out a
    property that is a function as it leaves out one that is
    [undefined]. *)
Definition add_attachments (attachments_fields : list (string * list value))
    (cells : object) (fieldschema : FieldSchemaVO) : object :=
  match read (field_name fieldschema) (attachment_values attachments_fields) with
  | Value VUndefined => cells
  | Value fieldValue => set (field_name fieldschema) fieldValue cells
  | Method _ => set (field_name fieldschema) VUndefined cells
  end.

Definition create_record_body (a : create_record_args) : M CallToolResult :=
  if String.eqb (cr_node_id a) EmptyString then
    throw (JsError "The datasheet ID (node_id) is required.")
  else
    match cr_fields a, cr_attachments_fields a with
    | None, None =>
        throw (JsError "At least one of 'fields' or 'attachments_fields' must be provided.")
    | _, _ =>
        getFieldsResult <- getDatasheetFieldsSchema (cr_node_id a) ;;
        if negb (success getFieldsResult) then
          throw (JsError (or_else (message getFieldsResult)
                            "Failed to fetch datasheet fields schema"))
        else
          d <- data_of getFieldsResult "fields" ;;
          let fieldsSchema := fields d in
          cells <- match cr_fields a with
                   | Some fieldValues =>
                       lift (convertFieldValuesToCellFormat fieldsSchema fieldValues)
                   | None => ret []
                   end ;;
          let cells := match cr_attachments_fields a with
                       | Some attachments_fields =>
                           fold_left (add_attachments attachments_fields) fieldsSchema cells
                       | None => cells
                       end in
          createRecordResult <- createDatasheetRecord (cr_node_id a) cells ;;
          if negb (success createRecordResult) then
            throw (JsError (or_else (message createRecordResult) "Failed to create record"))
          else
            created <- data_of createRecordResult "records" ;;
            ret (formatToolResponse
                   (succeeded_with (VObj [("records", records created)])) false)
    end.

Definition create_record (a : create_record_args) : M CallToolResult :=
  try_catch (create_record_body a) on_error.

Record upload_attachment_args := {
  ua_node_id : string;
  ua_attachment_url : string;
  ua_attachment_name : option string;
}.

(** A [ResponseVO] as the value [JSON.stringify] is applied to. *)
Definition ResponseVO_value (r : ResponseVO value) : value :=
  VObj [ ("success", VBool (success r));
         ("message", value_of_string (message r));
         ("data", match data r with Some d => d | None => VUndefined end) ].

Definition upload_attachment_via_url_body (a : upload_attachment_args)
  : M CallToolResult :=
  if String.eqb (ua_node_id a) EmptyString then
    throw (JsError "The datasheet ID (node_id) is required.")
  else if String.eqb (ua_attachment_url a) EmptyString then
    throw (JsError "The attachment URL is required.")
  else
    result <- uploadFileToSpace (ua_node_id a) (ua_attachment_url a)
                (ua_attachment_name a) ;;
    if negb (success result) then
      throw (JsError (or_else (message result) "Failed to upload attachment"))
    else
      ret (formatToolResponse (succeeded_with (ResponseVO_value result)) false).

Definition upload_attachment_via_url (a : upload_attachment_args) : M CallToolResult :=
  try_catch (upload_attachment_via_url_body a) on_error.

(** An invocation of one of the registered tools. *)
Inductive invocation : Type :=
| ListSpaces
| SearchNodes (a : search_nodes_args)
| ListRecords (a : list_records_args)
| GetFieldsSchema (node_id : string)
| CreateRecord (a : create_record_args)
| UploadAttachmentViaUrl (a : upload_attachment_args).

(** The [try] block of the action. *)
Definition action_body (i : invocation) : M CallToolResult :=
  match i with
  | ListSpaces => list_spaces_body
  | SearchNodes a => search_nodes_body a
  | ListRecords a => list_records_body a
  | GetFieldsSchema node_id => get_fields_schema_body node_id
  | CreateRecord a => create_record_body a
  | UploadAttachmentViaUrl a => upload_attachment_via_url_body a
  end.

(** The action the server runs. *)
Definition action (i : invocation) : M CallToolResult :=
  match i with
  | ListSpaces => list_spaces
  | SearchNodes a => search_nodes a
  | ListRecords a => list_records a
  | GetFieldsSchema node_id => get_fields_schema node_id
  | CreateRecord a => create_record a
  | UploadAttachmentViaUrl a => upload_attachment_via_url a
  end.

(** ** Definitions the properties are stated with *)

(** An entry of [params] that reaches the query string: neither
    [undefined] nor [null], not an empty array, not the empty string. *)
Definition survives (v : value) : bool :=
  match v with
  | VUndefined | VNull => false
  | VArr [] => false
  | VStr EmptyString => false
  | _ => true
  end.

Definition has_keywords (field : FieldSchemaVO) : bool :=
  match _getKeywordByFieldType field with Some _ => true | None => false end.

(** The field types of the specification's table. *)
Definition supported_types : list string :=
  [ "Text"; "SingleText"; "Email"; "URL"; "Phone"; "Checkbox"; "Number";
    "Currency"; "Percent"; "Rating"; "DateTime"; "SingleSelect"; "MultiSelect";
    "Attachment" ].

Definition supported (field : FieldSchemaVO) : bool :=
  includes supported_types (field_type field).

(** A supported field other than a [MultiSelect] without [options]. *)
Definition representable (field : FieldSchemaVO) : bool :=
  supported field
  && negb (String.eqb (field_type field) "MultiSelect"
           && match options_of field with Some _ => false | None => true end).

(** The ids the specification describes for a list of option names: each
    name is looked up by exact match and contributes its option's id;
    a name no option carries is dropped. *)
Fixpoint spec_option_ids (opts : list SelectFieldOptionVO) (names : list string)
  : list string :=
  match names with
  | [] => []
  | name :: rest =>
      match find (fun o => String.eqb (option_name o) name) opts with
      | Some o => option_id o :: spec_option_ids opts rest
      | None => spec_option_ids opts rest
      end
  end.

(** The ids [_getCellValueByFieldType] keeps for an array of raw values. *)
Definition matched_ids (field : FieldSchemaVO) (raws : list value) : list string :=
  flat_map (fun raw => match find_option field raw with
                       | Some o => [option_id o]
                       | None => []
                       end) raws.

(** An id kept for the raw values [raws]: the id of an option of the
    field whose name is one of them. *)
Definition is_matched_id (field : FieldSchemaVO) (raws : list value) (id : string)
  : Prop :=
  exists opts o, options_of field = Some opts /\ In o opts /\ option_id o = id
                 /\ In (VStr (option_name o)) raws.

(** [m], run from [log], appends the calls [new] and ends in a result
    that [Q] relates to them. *)
Definition runs {A : Type} (m : M A) (log : list call)
    (Q : result A -> list call -> Prop) : Prop :=
  exists new, snd (m log) = (log ++ new)%list /\ Q (fst (m log)) new.

(** What [fetchFromAPI] returns for an answer of the remote. *)
Definition api_result {T : Type} (answer : result (Response (ResponseVO T)))
  : result (ResponseVO T) :=
  match answer with
  | inl e => inl e
  | inr response =>
      match json response with
      | inl e => inl e
      | inr responseJson =>
          if negb (ok response) then inl (api_error response responseJson)
          else inr responseJson
      end
  end.

(** Whether the remote answered with success. *)
Definition answered {J : Type} (succeeded : Response J -> bool)
    (answer : result (Response J)) : bool :=
  match answer with
  | inr response => succeeded response
  | inl _ => false
  end.

Definition failure_envelope (env : CallToolResult) : Prop :=
  exists m, env = formatToolResponse (failure (VStr m)) true.

Definition success_envelope (env : CallToolResult) : Prop :=
  exists d, env = formatToolResponse (succeeded_with d) false.

Definition all_succeeded (calls : list call) : Prop :=
  Forall (fun c => call_succeeded c = true) calls.

(** What the [try] block of an action may do: throw, return a failure
    envelope, or return a success envelope after calls that all
    succeeded. *)
Definition body_post (r : result CallToolResult) (new : list call) : Prop :=
  match r with
  | inl _ => True
  | inr env => failure_envelope env \/ (success_envelope env /\ all_succeeded new)
  end.

(** The text of a failure envelope: the two keys [success] and
    [message], nothing else. *)
Definition failure_text (m : string) : string :=
  "{" ++ QuoteJSONString "success" ++ ":false," ++ QuoteJSONString "message" ++ ":"
    ++ QuoteJSONString m ++ "}".

(** The request [getDatasheetFieldsSchema] sends. *)
Definition schema_request (node_id : string) : request :=
  api_request ("/v1/datasheets/" ++ node_id ++ "/fields") GET.

(** ** Definitions the further properties are stated with *)

(** Whether [String] and [Number] convert [v]: it is not, and as an array
    it does not hold at any depth, an object with an own [toString]. *)
Fixpoint convertible (v : value) : bool :=
  match v with
  | VArr xs => forallb convertible xs
  | VObj props =>
      match get "toString" props with
      | Some _ => false
      | None => true
      end
  | _ => true
  end.

(** Whether a name is an array index. *)
Definition is_index (k : string) : bool :=
  match Str.array_index k with Some _ => true | None => false end.

(** Whether the own property [k] may be enumerated before [k']: an array
    index comes before a larger one and before every other name. *)
Definition enumerated_before (k k' : string) : bool :=
  match Str.array_index k, Str.array_index k' with
  | Some n, Some n' => N.leb n n'
  | Some _, None => true
  | None, Some _ => false
  | None, None => true
  end.

(** Names in the order in which JavaScript enumerates the own properties
    of an object: the array indices first, in ascending order, then the
    other names. *)
Fixpoint enumeration_order (keys : list string) : bool :=
  match keys with
  | [] => true
  | k :: rest => forallb (enumerated_before k) rest && enumeration_order rest
  end.

(** The type tags whose cell is the string of the raw value. *)
Definition string_cell_types : list string :=
  [ "Text"; "SingleText"; "Email"; "URL"; "Phone"; "SingleSelect" ].

(** The type tags whose cell is the number of the raw value. *)
Definition number_cell_types : list string :=
  [ "Number"; "Currency"; "Percent"; "Rating" ].

(** The type tags [_getCellValueByFieldType] has a branch for. *)
Definition cell_types : list string :=
  [ "Text"; "SingleText"; "Email"; "URL"; "Phone"; "SingleSelect"; "Checkbox";
    "Number"; "Currency"; "Percent"; "Rating"; "DateTime"; "MultiSelect" ].

(** The message of the input check an action starts with, when the input
    fails it. *)
Definition validation_error (i : invocation) : option string :=
  match i with
  | ListSpaces => None
  | SearchNodes a =>
      if String.eqb (sn_space_id a) EmptyString || String.eqb (sn_node_type a) EmptyString
      then Some "space_id and node_type are required."
      else None
  | ListRecords a =>
      if String.eqb (lr_node_id a) EmptyString then Some "datasheet ID is required."
      else None
  | GetFieldsSchema node_id =>
      if String.eqb node_id EmptyString then Some "The datasheet ID (node_id) is required."
      else None
  | CreateRecord a =>
      if String.eqb (cr_node_id a) EmptyString
      then Some "The datasheet ID (node_id) is required."
      else match cr_fields a, cr_attachments_fields a with
           | None, None =>
               Some "At least one of 'fields' or 'attachments_fields' must be provided."
           | _, _ => None
           end
  | UploadAttachmentViaUrl a =>
      if String.eqb (ua_node_id a) EmptyString
      then Some "The datasheet ID (node_id) is required."
      else if String.eqb (ua_attachment_url a) EmptyString
           then Some "The attachment URL is required."
           else None
  end.

(** What holds of every cell [convertFieldValuesToCellFormat] builds from
    the fields [all] and the values [fieldValues]. *)
Definition cell_from (all : list FieldSchemaVO) (fieldValues : object)
    (k : string) (v : value) : Prop :=
  v <> VNull /\ v <> VUndefined /\ read k fieldValues <> Value VUndefined
  /\ exists f, In f all /\ field_name f = k
               /\ cell_value f (read k fieldValues) = inr v.

(** The request [_fetchFileViaURL] sends. *)
Definition file_request (file_url : string) : request :=
  {| req_url := file_url; req_method := "GET"; req_headers := []; req_body := NoBody |}.

(** The request [uploadFileToSpace] posts the file with. *)
Definition upload_request (node_id : string) (fileBlob : Blob) (file_name : string)
  : request :=
  {| req_url := baseUrl ++ "/v1/datasheets/" ++ node_id ++ "/attachments";
     req_method := "POST";
     req_headers := [("Authorization", "Bearer " ++ apiKey)];
     req_body := FormData [("file", fileBlob, file_name)] |}.

(** The request [createDatasheetRecord] sends. *)
Definition write_request (node_id : string) (cells : object) : request :=
  api_request ("/v1/datasheets/" ++ node_id ++ "/records")
    {| init_method := "POST"; init_headers := [];
       init_body :=
         TextBody (string_of_json
                     (JSON_stringify
                        (VObj [("records", VArr [VObj [("fields", VObj cells)]])]))) |}.

(** The requests an action may send. *)
Definition allowed_request (i : invocation) (r : request) : Prop :=
  match i with
  | ListSpaces => r = api_request "/spaces" GET
  | SearchNodes a =>
      exists queryStr,
        r = api_request ("/spaces/" ++ sn_space_id a ++ "/nodes" ++ queryStr) GET
  | ListRecords a =>
      exists endpoint, list_records_endpoint a = inr endpoint /\ r = api_request endpoint GET
  | GetFieldsSchema node_id => r = schema_request node_id
  | CreateRecord a =>
      r = schema_request (cr_node_id a) \/ exists cells, r = write_request (cr_node_id a) cells
  | UploadAttachmentViaUrl a =>
      r = file_request (ua_attachment_url a)
      \/ exists fileBlob file_name, r = upload_request (ua_node_id a) fileBlob file_name
  end.

(** How many calls an action may make. *)
Definition max_calls (i : invocation) : nat :=
  match i with
  | CreateRecord _ | UploadAttachmentViaUrl _ => 2
  | _ => 1
  end.

(** The calls of an action stay within its bound and its requests. *)
Definition within (i : invocation) (new : list call) : Prop :=
  (length new <= max_calls i)%nat
  /\ Forall (fun c => allowed_request i (call_request c)) new.

(** ** Reading a query string back *)

(** What [encodeURIComponent] writes for one character. *)
Definition encode_char (c : ascii) : string :=
  if uri_unreserved c then Str.of_char c
  else String "%" (Str.hex2 true (nat_of_ascii c)).

Definition hex_value (c : ascii) : option nat :=
  let n := nat_of_ascii c in
  if Nat.leb 48 n && Nat.leb n 57 then Some (n - 48)
  else if Nat.leb 65 n && Nat.leb n 70 then Some (n - 55)
  else if Nat.leb 97 n && Nat.leb n 102 then Some (n - 87)
  else None.

(** Percent-decoding, as [decodeURIComponent] does on the bytes; [None]
    on a malformed escape. *)
Fixpoint percent_decode (s : string) : option string :=
  match s with
  | EmptyString => Some EmptyString
  | String "%" (String a (String b rest)) =>
      match hex_value a, hex_value b, percent_decode rest with
      | Some x, Some y, Some decoded => Some (String (ascii_of_nat (16 * x + y)) decoded)
      | _, _, _ => None
      end
  | String "%" _ => None
  | String c rest =>
      match percent_decode rest with
      | Some decoded => Some (String c decoded)
      | None => None
      end
  end.

Fixpoint has_char (c : ascii) (s : string) : bool :=
  match s with
  | EmptyString => false
  | String x rest => Ascii.eqb x c || has_char c rest
  end.

(** A pair [key=value] cut at its first equals sign. *)
Fixpoint cut_pair (s : string) : option (string * string) :=
  match s with
  | EmptyString => None
  | String c rest =>
      if Ascii.eqb c "=" then Some (EmptyString, rest)
      else match cut_pair rest with
           | Some (k, v) => Some (String c k, v)
           | None => None
           end
  end.

Definition decode_pair (item : string) : option (string * string) :=
  match cut_pair item with
  | Some (k, v) =>
      match percent_decode k, percent_decode v with
      | Some key, Some text => Some (key, text)
      | _, _ => None
      end
  | None => None
  end.

Fixpoint decode_pairs (pairs : list string) : option (list (string * string)) :=
  match pairs with
  | [] => Some []
  | item :: rest =>
      match decode_pair item, decode_pairs rest with
      | Some kv, Some kvs => Some (kv :: kvs)
      | _, _ => None
      end
  end.

(** The keys and value texts of a query string: nothing for the empty
    string, otherwise the decoded pairs between the ampersands after the
    question mark. *)
Definition parse_query (s : string) : option (list (string * string)) :=
  match s with
  | EmptyString => Some []
  | String "?" rest => decode_pairs (Str.split "&" rest)
  | _ => None
  end.

(** The text [buildQueryString] encodes for a value: its JSON text for an
    array or an object, its string otherwise. *)
Definition query_text (v : value) : string :=
  match v with
  | VArr _ | VObj _ => string_of_json (JSON_stringify v)
  | VStr s => s
  | VBool b => if b then "true" else "false"
  | VNum n => Number_toString n
  | VUndefined => "undefined"
  | VNull => "null"
  end.

(** The pair [buildQueryString] pushes for a surviving entry. *)
Definition query_pair_of (kv : string * value) : string :=
  encodeURIComponent (fst kv) ++ "=" ++ encodeURIComponent (query_text (snd kv)).

(** The pairs of the entries of [params] that survive, in order. *)
Definition query_pairs (params : object) : list string :=
  map query_pair_of (filter (fun kv => survives (snd kv)) params).

(** The pairs of the optional parameters of [list_records] that were
    given: [sort] when it is a non-empty list, the page number and size,
    [fields] and [viewId] when they are not the empty string. *)
Definition given_pairs (a : list_records_args) : list string :=
  let sort :=
    match lr_sort a with
    | Some (i :: items) =>
        [ "sort="
            ++ encodeURIComponent
                 (string_of_json
                    (JSON_stringify (VArr (map sort_item_value (i :: items))))) ]
    | _ => []
    end in
  let pageNum :=
    match lr_pageNum a with
    | Some n => ["pageNum=" ++ encodeURIComponent (Number_toString n)]
    | None => []
    end in
  let pageSize :=
    match lr_pageSize a with
    | Some n => ["pageSize=" ++ encodeURIComponent (Number_toString n)]
    | None => []
    end in
  let fields :=
    match lr_fields a with
    | Some (String c s) => ["fields=" ++ encodeURIComponent (String c s)]
    | _ => []
    end in
  let viewId :=
    match lr_viewId a with
    | Some (String c s) => ["viewId=" ++ encodeURIComponent (String c s)]
    | _ => []
    end in
  (sort ++ pageNum ++ pageSize ++ fields ++ viewId)%list.

(** The message an action reports when the API answer [answer] to its
    call is a failure: the error [fetchFromAPI] throws, or for a decoded
    envelope with [success:false] its message, [fallback] when it has
    none; [None] when the answer is a success. *)
Definition reported_failure {T : Type} (fallback : string)
    (answer : result (Response (ResponseVO T))) : option string :=
  match api_result answer with
  | inl e => Some (error_message e)
  | inr responseJson =>
      if success responseJson then None
      else Some (or_else (message responseJson) fallback)
  end.

(** The failure of the first API call of an action on valid input, from
    the log [log]: its message, [None] when the call succeeds (or, for the
    upload, when the first call is the fetch of the file). *)
Definition first_call_failure (i : invocation) (log : list call) : option string :=
  match i with
  | ListSpaces =>
      reported_failure "Failed to fetch spaces"
        (remote_spaces remote log (api_request "/spaces" GET))
  | SearchNodes a =>
      match buildQueryString [ ("type", VStr (sn_node_type a));
                               ("query", value_of_string (sn_query a)) ] [] with
      | inr queryStr =>
          reported_failure "Failed to search nodes"
            (remote_nodes remote log
               (api_request ("/spaces/" ++ sn_space_id a ++ "/nodes" ++ queryStr) GET))
      | inl _ => None
      end
  | ListRecords a =>
      match list_records_endpoint a with
      | inr endpoint =>
          reported_failure "Failed to list records"
            (remote_records remote log (api_request endpoint GET))
      | inl _ => None
      end
  | GetFieldsSchema node_id =>
      reported_failure "Failed to fetch datasheet fields schema"
        (remote_fields remote log (schema_request node_id))
  | CreateRecord a =>
      reported_failure "Failed to fetch datasheet fields schema"
        (remote_fields remote log (schema_request (cr_node_id a)))
  | UploadAttachmentViaUrl _ => None
  end.

(** The [definitions] [list_spaces] attaches to the spaces. *)
Definition space_definitions : value :=
  VObj [ str_prop "id" "The workspace ID";
         str_prop "name" "The name of the workspace";
         str_prop "isAdmin" "Indicates if the user has admin permissions in the workspace" ].

(** The data of an API answer that is a success, shaped by [shape];
    [None] when the answer is a failure or has no [data]. *)
Definition answered_data {T : Type} (shape : T -> value)
    (answer : result (Response (ResponseVO T))) : option value :=
  match api_result answer with
  | inr responseJson =>
      if success responseJson then
        match data responseJson with
        | Some d => Some (shape d)
        | None => None
        end
      else None
  | inl _ => None
  end.

(** What a read action returns as [data] on valid input when its call
    succeeds: the spaces with the definitions, the nodes with [id] renamed,
    the records as they are, the schema generated from the fields. *)
Definition read_data (i : invocation) (log : list call) : option value :=
  match i with
  | ListSpaces =>
      answered_data (fun d => VObj [("spaces", spaces d); ("definitions", space_definitions)])
        (remote_spaces remote log (api_request "/spaces" GET))
  | SearchNodes a =>
      match buildQueryString [ ("type", VStr (sn_node_type a));
                               ("query", value_of_string (sn_query a)) ] [] with
      | inr queryStr =>
          answered_data (fun d => VArr (map to_tool_node (nodes d)))
            (remote_nodes remote log
               (api_request ("/spaces/" ++ sn_space_id a ++ "/nodes" ++ queryStr) GET))
      | inl _ => None
      end
  | ListRecords a =>
      match list_records_endpoint a with
      | inr endpoint =>
          answered_data (fun d => d) (remote_records remote log (api_request endpoint GET))
      | inl _ => None
      end
  | GetFieldsSchema node_id =>
      answered_data (fun d => FieldFormatJSONSchema_value (getFieldsJSONSchema (fields d)))
        (remote_fields remote log (schema_request node_id))
  | CreateRecord _ | UploadAttachmentViaUrl _ => None
  end.

(** ** The calendar arithmetic of [JsDate], by eras of 400 years *)

(** Day of the 400-year era of the day [d] of month [m] in the year [yoe]
    of the era (years starting in March). *)
Definition doe_of (yoe m d : Z) : Z :=
  (yoe * 365 + yoe / 4 - yoe / 100 + ((153 * ((m + 9) mod 12) + 2) / 5 + d - 1))%Z.

(** Year of the era, month and day of a day of the era. *)
Definition civil_of_doe (doe : Z) : Z * Z * Z :=
  (let yoe := (doe - doe / 1460 + doe / 36524 - doe / 146096) / 365 in
   let doy := doe - (365 * yoe + yoe / 4 - yoe / 100) in
   let mp := (5 * doy + 2) / 153 in
   let d := doy - (153 * mp + 2) / 5 + 1 in
   let m := if mp <? 10 then mp + 3 else mp - 9 in
   (yoe, m, d))%Z.

(** The calendar year of month [m] of the era year [yoe], modulo 400. *)
Definition era_year (yoe m : Z) : Z := (if m <=? 2 then yoe + 1 else yoe)%Z.

(** The check that day [d] of month [m] of the era year [yoe], when it
    exists, is within the era and is read back from its day of the era. *)
Definition era_date_ok (yoe m d : Z) : bool :=
  (negb (d <=? JsDate.days_in_month (era_year yoe m) m)
   || ((0 <=? doe_of yoe m d) && (doe_of yoe m d <? 146097)
       && match civil_of_doe (doe_of yoe m d) with
          | (yoe', m', d') => (yoe' =? yoe) && (m' =? m) && (d' =? d)
          end))%Z.

(** The integers from 0 up to [n], excluded. *)
Definition range (n : nat) : list Z := map Z.of_nat (seq 0 n).

End Program.

Arguments ok {J}.
Arguments statusText {J}.
Arguments json {J}.
Arguments text {J}.
Arguments blob {J}.
Arguments success {T}.
Arguments message {T}.
Arguments data {T}.

(** * A concrete environment and remote, to run the model on inputs *)

Module Reference.

(** Numbers restricted to the integers, [None] for [NaN]. *)
Definition to_string (n : option Z) : string :=
  match n with Some z => Str.of_Z z | None => "NaN" end.

Definition of_string (s : string) : option Z :=
  match s with EmptyString => Some 0%Z | _ => JsDate.digits s 0 end.

(** The path of an absolute URL: what follows the authority, up to the
    query or the fragment. *)
Fixpoint after_scheme (s : string) : option string :=
  match s with
  | String ":" (String "/" (String "/" rest)) => Some rest
  | String _ rest => after_scheme rest
  | EmptyString => None
  end.

Definition ends_path (c : ascii) : bool := Ascii.eqb c "?" || Ascii.eqb c "#".

Fixpoint from_path (s : string) : string :=
  match s with
  | EmptyString => EmptyString
  | String c rest =>
      if Ascii.eqb c "/" || ends_path c then s else from_path rest
  end.

Fixpoint until_query (s : string) : string :=
  match s with
  | EmptyString => EmptyString
  | String c rest => if ends_path c then EmptyString else String c (until_query rest)
  end.

Definition pathname (url : string) : option string :=
  match after_scheme url with
  | Some rest =>
      Some match until_query (from_path rest) with
           | EmptyString => "/"
           | path => path
           end
  | None => None
  end.

#[export] Instance env : JsEnv := {|
  number := option Z;
  Number_toString := to_string;
  Number_isFinite := fun n => match n with Some _ => true | None => false end;
  Number_truthy := fun n => match n with Some z => negb (Z.eqb z 0) | None => false end;
  Number_NaN := None;
  Number_ofZ := Some;
  StringToNumber := of_string;
  Function_toString := fun name =>
    "function " ++ (if String.eqb name "constructor" then "Object" else name)
      ++ "() { [native code] }";
  URL_pathname := pathname;
  Date_parse_other := fun _ => None;
  Date_now := 1700000000000%Z;
|}.

Definition apiKey : string := "key".
Definition baseUrl : string := "https://apitable.com/fusion".

Definition refuse {J : Type} : responder J :=
  fun _ _ => inl (JsError "connect ECONNREFUSED").

Definition answer_with {T : Type} (d : T) : responder (ResponseVO T) :=
  fun _ _ =>
    inr {| ok := true; statusText := "OK";
           json := inr {| success := true; message := Some "SUCCESS"; data := Some d |};
           text := inl (JsError "body used already");
           blob := inl (JsError "body used already") |}.

Definition name_field : FieldSchemaVO :=
  {| field_name := "Name"; field_type := "Text"; field_property := None |}.

Definition email_field : FieldSchemaVO :=
  {| field_name := "Contact"; field_type := "Email"; field_property := None |}.

Definition tags_field : FieldSchemaVO :=
  {| field_name := "Tags"; field_type := "MultiSelect"; field_property := None |}.

Definition formula_field : FieldSchemaVO :=
  {| field_name := "Total"; field_type := "Formula"; field_property := None |}.

Definition colour_options : list SelectFieldOptionVO :=
  [ {| option_id := "o1"; option_name := "Red" |};
    {| option_id := "o2"; option_name := "Blue" |} ].

Definition status_field : FieldSchemaVO :=
  {| field_name := "Status"; field_type := "SingleSelect";
     field_property := Some {| prop_options := Some colour_options; prop_max := None |} |}.

Definition colours_field : FieldSchemaVO :=
  {| field_name := "Colours"; field_type := "MultiSelect";
     field_property := Some {| prop_options := Some colour_options; prop_max := None |} |}.

Definition created : value :=
  VArr [VObj [("recordId", VStr "rec1"); ("fields", VObj [("Name", VStr "Alice")])]].

(** A remote that serves one datasheet with the field [Name]. *)
Definition up : Remote :=
  {| remote_spaces := answer_with {| spaces := VArr [] |};
     remote_nodes :=
       answer_with {| nodes := [ [ ("id", VStr "dst1"); ("name", VStr "Sheet A");
                                   ("type", VStr "Datasheet") ] ] |};
     remote_records := answer_with (VObj [("records", VArr [])]);
     remote_fields := answer_with {| fields := [name_field] |};
     remote_create := answer_with {| records := created |};
     remote_upload := answer_with (VArr []);
     remote_file := fun _ _ =>
       inr {| ok := true; statusText := "OK"; json := inr tt;
              text := inr "bytes"; blob := inr "bytes" |} |}.

(** A remote that cannot be reached. *)
Definition down : Remote :=
  {| remote_spaces := refuse; remote_nodes := refuse; remote_records := refuse;
     remote_fields := refuse; remote_create := refuse; remote_upload := refuse;
     remote_file := refuse |}.

Definition alice : create_record_args :=
  {| cr_node_id := "dst1"; cr_fields := Some [("Name", VStr "Alice")];
     cr_attachments_fields := None |}.

Definition due_field : FieldSchemaVO :=
  {| field_name := "Due"; field_type := "DateTime"; field_property := None |}.

Definition photos : list value :=
  [VObj [("token", VStr "space/2024/photo.png"); ("name", VStr "photo.png")]].

Definition sheet_a : object :=
  [("id", VStr "dst1"); ("name", VStr "Sheet A"); ("type", VStr "Datasheet")].

Definition find_sheets : search_nodes_args :=
  {| sn_space_id := "spc1"; sn_node_type := "Datasheet"; sn_query := None |}.

End Reference.

(** * Properties *)

Section Properties.

Context `{JsEnv}.
Variable apiKey : string.
Variable baseUrl : string.
Variable remote : Remote.

Local Abbreviation api_request := (api_request apiKey baseUrl).
Local Abbreviation fetchFromAPI := (fetchFromAPI apiKey baseUrl).
Local Abbreviation getDatasheetFieldsSchema := (getDatasheetFieldsSchema apiKey baseUrl remote).
Local Abbreviation createDatasheetRecord := (createDatasheetRecord apiKey baseUrl remote).
Local Abbreviation _fetchFileViaURL := (_fetchFileViaURL remote).
Local Abbreviation uploadFileToSpace := (uploadFileToSpace apiKey baseUrl remote).
Local Abbreviation list_spaces_body := (list_spaces_body apiKey baseUrl remote).
Local Abbreviation list_spaces := (list_spaces apiKey baseUrl remote).
Local Abbreviation search_nodes_body := (search_nodes_body apiKey baseUrl remote).
Local Abbreviation search_nodes := (search_nodes apiKey baseUrl remote).
Local Abbreviation list_records_body := (list_records_body apiKey baseUrl remote).
Local Abbreviation list_records := (list_records apiKey baseUrl remote).
Local Abbreviation get_fields_schema_body := (get_fields_schema_body apiKey baseUrl remote).
Local Abbreviation get_fields_schema := (get_fields_schema apiKey baseUrl remote).
Local Abbreviation create_record_body := (create_record_body apiKey baseUrl remote).
Local Abbreviation create_record := (create_record apiKey baseUrl remote).
Local Abbreviation upload_attachment_via_url_body :=
(upload_attachment_via_url_body apiKey baseUrl remote).
Local Abbreviation upload_attachment_via_url :=
(upload_attachment_via_url apiKey baseUrl remote).
Local Abbreviation action_body := (action_body apiKey baseUrl remote).
Local Abbreviation action := (action apiKey baseUrl remote).
Local Abbreviation schema_request := (schema_request apiKey baseUrl).
Local Abbreviation upload_request := (upload_request apiKey baseUrl).
Local Abbreviation write_request := (write_request apiKey baseUrl).
Local Abbreviation allowed_request := (allowed_request apiKey baseUrl).
Local Abbreviation within := (within apiKey baseUrl).
Local Abbreviation first_call_failure := (first_call_failure apiKey baseUrl remote).
Local Abbreviation read_data := (read_data apiKey baseUrl remote).

(** ** Query strings *)

Lemma query_param_skipped key v : survives v = false -> query_param key v = [].
Proof.
  destruct v as [ | | b | n | s | xs | ps ]; simpl; try discriminate; try reflexivity.
  - destruct s; [reflexivity | discriminate].
  - destruct xs; [reflexivity | discriminate].
Qed.

Lemma query_param_kept key v :
  survives v = true -> exists pair, query_param key v = [pair].
Proof.
  destruct v as [ | | b | n | s | xs | ps ]; simpl; try discriminate; eauto.
  - destruct s; [discriminate | eauto].
  - destruct xs; [discriminate | eauto].
Qed.

Lemma queryParams_empty (params : object) :
  flat_map (fun kv => query_param (fst kv) (snd kv)) params = []
  <-> existsb (fun kv => survives (snd kv)) params = false.
Proof.
  induction params as [ | [k v] rest IH ]; simpl; [tauto | ].
  destruct (survives v) eqn:E; simpl.
  - destruct (query_param_kept k v E) as [pair ->]. simpl. split; discriminate.
  - rewrite (query_param_skipped k v E). exact IH.
Qed.

Lemma buildQueryString_no_required params :
  buildQueryString params [] =
    inr (match flat_map (fun kv => query_param (fst kv) (snd kv)) params with
         | [] => EmptyString
         | queryParams => "?" ++ Str.join "&" queryParams
         end).
Proof.
  unfold buildQueryString. simpl.
  destruct (flat_map _ params); reflexivity.
Qed.

Lemma queryParams_are_pairs (params : object) :
  flat_map (fun kv => query_param (fst kv) (snd kv)) params = query_pairs params.
Proof.
  unfold query_pairs.
  induction params as [ | [k v] rest IH ]; [reflexivity | ].
  cbn [flat_map filter fst snd]. rewrite IH.
  destruct v as [ | | b | n | s | xs | ps ]; try reflexivity.
  - destruct s; reflexivity.
  - destruct xs; reflexivity.
Qed.

(** ** Objects as association lists *)

Lemma get_None_keys {A : Type} (k : string) (o : list (string * A)) :
  get k o = None <-> ~ In k (map fst o).
Proof.
  induction o as [ | [k0 v0] rest IH ]; simpl.
  - tauto.
  - destruct (String.eqb_spec k0 k) as [-> | Hne].
    + split; [discriminate | tauto].
    + rewrite IH. tauto.
Qed.

Lemma get_Some_keys {A : Type} (k : string) (v : A) (o : list (string * A)) :
  get k o = Some v -> In k (map fst o).
Proof.
  intros Hget. destruct (in_dec string_dec k (map fst o)) as [Hin | Hn]; [exact Hin | ].
  apply get_None_keys in Hn. congruence.
Qed.

Lemma get_update_eq {A : Type} (k : string) (v : A) (o : list (string * A)) :
  get k o <> None -> get k (update k v o) = Some v.
Proof.
  induction o as [ | [k0 v0] rest IH ]; simpl; [congruence | ].
  destruct (String.eqb k0 k) eqn:E; simpl; rewrite E; auto.
Qed.

Lemma get_update_ne {A : Type} (k k' : string) (v : A) (o : list (string * A)) :
  k <> k' -> get k (update k' v o) = get k o.
Proof.
  intros Hne. induction o as [ | [k0 v0] rest IH ]; simpl; [reflexivity | ].
  destruct (String.eqb_spec k0 k') as [-> | Hne']; simpl.
  - destruct (String.eqb_spec k' k); congruence.
  - now rewrite IH.
Qed.

Lemma update_keys {A : Type} (k : string) (v : A) (o : list (string * A)) :
  map fst (update k v o) = map fst o.
Proof.
  induction o as [ | [k0 v0] rest IH ]; simpl; [reflexivity | ].
  destruct (String.eqb k0 k); simpl; congruence.
Qed.

Lemma In_update {A : Type} (k k' : string) (v v' : A) (o : list (string * A)) :
  In (k, v) (update k' v' o) -> (k = k' /\ v = v') \/ In (k, v) o.
Proof.
  induction o as [ | [k0 v0] rest IH ]; simpl; [tauto | ].
  destruct (String.eqb_spec k0 k') as [-> | Hne]; simpl.
  - intros [Heq | Hin]; [left; split; congruence | tauto].
  - intros [Heq | Hin]; [tauto | ]. destruct (IH Hin); tauto.
Qed.

Lemma get_insert_index_eq {A : Type} (n : N) (k : string) (v : A) (o : list (string * A)) :
  get k o = None -> get k (insert_index n k v o) = Some v.
Proof.
  induction o as [ | [k0 v0] rest IH ]; simpl.
  - now rewrite String.eqb_refl.
  - destruct (String.eqb k0 k) eqn:E; [discriminate | ]. intros Hget.
    destruct (Str.array_index k0) as [n' | ]; [destruct (N.ltb n' n) | ]; simpl;
      rewrite ?E, ?String.eqb_refl; auto.
Qed.

Lemma get_insert_index_ne {A : Type} (n : N) (k k' : string) (v : A)
    (o : list (string * A)) :
  k <> k' -> get k (insert_index n k' v o) = get k o.
Proof.
  intros Hne. apply not_eq_sym in Hne. apply String.eqb_neq in Hne.
  induction o as [ | [k0 v0] rest IH ]; simpl.
  - now rewrite Hne.
  - destruct (Str.array_index k0) as [n' | ]; [destruct (N.ltb n' n) | ]; simpl;
      rewrite ?Hne, ?IH; reflexivity.
Qed.

Lemma insert_index_keys {A : Type} (n : N) (k k' : string) (v : A)
    (o : list (string * A)) :
  In k (map fst (insert_index n k' v o)) <-> k = k' \/ In k (map fst o).
Proof.
  induction o as [ | [k0 v0] rest IH ]; simpl.
  - intuition congruence.
  - destruct (Str.array_index k0) as [n' | ]; [destruct (N.ltb n' n) | ]; simpl;
      rewrite ?IH; intuition congruence.
Qed.

Lemma insert_index_NoDup {A : Type} (n : N) (k : string) (v : A) (o : list (string * A)) :
  ~ In k (map fst o) -> NoDup (map fst o) -> NoDup (map fst (insert_index n k v o)).
Proof.
  induction o as [ | [k0 v0] rest IH ]; simpl; intros Hnot Hnd.
  - constructor; [tauto | constructor].
  - inversion Hnd as [ | ? ? Hk0 Hrest ]; subst.
    assert (Hcons : NoDup (k :: k0 :: map fst rest)).
    { constructor; [simpl; tauto | exact Hnd]. }
    destruct (Str.array_index k0) as [n' | ]; [destruct (N.ltb n' n) | ]; simpl; auto.
    constructor; [ | apply IH; tauto].
    rewrite insert_index_keys. intros [-> | Hin]; tauto.
Qed.

Lemma In_insert_index {A : Type} (n : N) (k k' : string) (v v' : A)
    (o : list (string * A)) :
  In (k, v) (insert_index n k' v' o) -> (k = k' /\ v = v') \/ In (k, v) o.
Proof.
  induction o as [ | [k0 v0] rest IH ]; simpl.
  - intros [Heq | []]. left. split; congruence.
  - destruct (Str.array_index k0) as [n' | ]; [destruct (N.ltb n' n) | ]; simpl.
    + intros [Heq | Hin]; [tauto | ]. destruct (IH Hin); tauto.
    + intros [Heq | Hin]; [left; split; congruence | tauto].
    + intros [Heq | Hin]; [left; split; congruence | tauto].
Qed.

Lemma get_app {A : Type} (k : string) (a b : list (string * A)) :
  get k (a ++ b)%list = match get k a with Some v => Some v | None => get k b end.
Proof.
  induction a as [ | [k0 v0] rest IH ]; simpl; [reflexivity | ].
  destruct (String.eqb k0 k); auto.
Qed.

Lemma get_define_eq {A : Type} (k : string) (v : A) (o : list (string * A)) :
  get k (define k v o) = Some v.
Proof.
  unfold define. destruct (get k o) eqn:E.
  - apply get_update_eq. congruence.
  - destruct (Str.array_index k).
    + now apply get_insert_index_eq.
    + rewrite get_app, E. simpl. now rewrite String.eqb_refl.
Qed.

Lemma get_define_ne {A : Type} (k k' : string) (v : A) (o : list (string * A)) :
  k <> k' -> get k (define k' v o) = get k o.
Proof.
  intros Hne. unfold define. destruct (get k' o) eqn:E.
  - now apply get_update_ne.
  - destruct (Str.array_index k').
    + now apply get_insert_index_ne.
    + rewrite get_app. simpl.
      destruct (String.eqb_spec k' k); [congruence | ]. now destruct (get k o).
Qed.

Lemma define_keys {A : Type} (k k' : string) (v : A) (o : list (string * A)) :
  In k (map fst (define k' v o)) <-> k = k' \/ In k (map fst o).
Proof.
  unfold define. destruct (get k' o) eqn:E.
  - rewrite update_keys. apply get_Some_keys in E. intuition congruence.
  - destruct (Str.array_index k').
    + apply insert_index_keys.
    + rewrite map_app, in_app_iff. simpl. intuition congruence.
Qed.

Lemma define_NoDup {A : Type} (k : string) (v : A) (o : list (string * A)) :
  NoDup (map fst o) -> NoDup (map fst (define k v o)).
Proof.
  intros Hnd. unfold define. destruct (get k o) eqn:E.
  - now rewrite update_keys.
  - apply get_None_keys in E. destruct (Str.array_index k).
    + now apply insert_index_NoDup.
    + rewrite map_app. simpl. apply NoDup_app; [exact Hnd | | ].
      * constructor; [tauto | constructor].
      * intros x Hx [<- | []]. tauto.
Qed.

Lemma In_define {A : Type} (k k' : string) (v v' : A) (o : list (string * A)) :
  In (k, v) (define k' v' o) -> (k = k' /\ v = v') \/ In (k, v) o.
Proof.
  unfold define. destruct (get k' o).
  - apply In_update.
  - destruct (Str.array_index k').
    + apply In_insert_index.
    + rewrite in_app_iff. simpl. intros [Hin | [Heq | []]]; [tauto | ].
      left. split; congruence.
Qed.

(** A new property whose name is not an array index comes last. *)
Lemma define_fresh {A : Type} (k : string) (v : A) (o : list (string * A)) :
  ~ In k (map fst o) -> Str.array_index k = None -> define k v o = (o ++ [(k, v)])%list.
Proof.
  intros Hnot Hidx. apply get_None_keys in Hnot. unfold define. now rewrite Hnot, Hidx.
Qed.

Lemma define_keeps_keys {A : Type} (k : string) (v : A) (o : list (string * A)) :
  In k (map fst o) -> map fst (define k v o) = map fst o.
Proof.
  intros Hin. unfold define. destruct (get k o) eqn:E.
  - apply update_keys.
  - apply get_None_keys in E. tauto.
Qed.

Lemma set_define {A : Type} (k : string) (v : A) (o : list (string * A)) :
  k <> "__proto__" -> set k v o = define k v o.
Proof.
  intros Hne. apply String.eqb_neq in Hne. unfold set. rewrite Hne.
  unfold define. destruct (get k o); reflexivity.
Qed.

(** Assigning to [__proto__] creates no property. *)
Lemma set_proto {A : Type} (v : A) (o : list (string * A)) :
  ~ In "__proto__" (map fst o) -> set "__proto__" v o = o.
Proof.
  intros Hnot. apply get_None_keys in Hnot. unfold set. now rewrite Hnot.
Qed.

Lemma get_set_eq {A : Type} (k : string) (v : A) (o : list (string * A)) :
  k <> "__proto__" -> get k (set k v o) = Some v.
Proof.
  intros Hne. rewrite set_define by exact Hne. apply get_define_eq.
Qed.

Lemma get_set_ne {A : Type} (k k' : string) (v : A) (o : list (string * A)) :
  k <> k' -> get k (set k' v o) = get k o.
Proof.
  intros Hne. unfold set. destruct (get k' o) eqn:E.
  - now apply get_update_ne.
  - destruct (String.eqb k' "__proto__"); [reflexivity | now apply get_define_ne].
Qed.

(** The names of an object built by assignments: never [__proto__]. *)
Lemma set_keys {A : Type} (k k' : string) (v : A) (o : list (string * A)) :
  ~ In "__proto__" (map fst o) ->
  In k (map fst (set k' v o))
  <-> (k = k' /\ k' <> "__proto__") \/ In k (map fst o).
Proof.
  intros Hnot. destruct (String.eqb_spec k' "__proto__") as [-> | Hne].
  - rewrite set_proto by exact Hnot. intuition congruence.
  - rewrite set_define by exact Hne. rewrite define_keys. intuition congruence.
Qed.

Lemma set_no_proto {A : Type} (k : string) (v : A) (o : list (string * A)) :
  ~ In "__proto__" (map fst o) -> ~ In "__proto__" (map fst (set k v o)).
Proof.
  intros Hnot. rewrite set_keys by exact Hnot. intuition congruence.
Qed.

Lemma set_NoDup {A : Type} (k : string) (v : A) (o : list (string * A)) :
  NoDup (map fst o) -> NoDup (map fst (set k v o)).
Proof.
  intros Hnd. unfold set. destruct (get k o) eqn:E.
  - now rewrite update_keys.
  - destruct (String.eqb k "__proto__"); [exact Hnd | now apply define_NoDup].
Qed.

Lemma In_set {A : Type} (k k' : string) (v v' : A) (o : list (string * A)) :
  In (k, v) (set k' v' o) -> (k = k' /\ v = v' /\ (k' <> "__proto__" \/ In k' (map fst o)))
                             \/ In (k, v) o.
Proof.
  unfold set. destruct (get k' o) eqn:E.
  - intros Hin. destruct (In_update _ _ _ _ _ Hin) as [[-> ->] | Hold]; [ | tauto].
    left. repeat split. right. eapply get_Some_keys; eauto.
  - destruct (String.eqb_spec k' "__proto__") as [-> | Hne]; [tauto | ].
    intros Hin. destruct (In_define _ _ _ _ _ Hin) as [[-> ->] | Hold]; tauto.
Qed.

Lemma set_fresh {A : Type} (k : string) (v : A) (o : list (string * A)) :
  ~ In k (map fst o) -> k <> "__proto__" -> Str.array_index k = None ->
  set k v o = (o ++ [(k, v)])%list.
Proof.
  intros Hnot Hne Hidx. rewrite set_define by exact Hne. now apply define_fresh.
Qed.

Lemma set_keeps_keys {A : Type} (k : string) (v : A) (o : list (string * A)) :
  In k (map fst o) -> map fst (set k v o) = map fst o.
Proof.
  intros Hin. unfold set. destruct (get k o) eqn:E.
  - apply update_keys.
  - apply get_None_keys in E. tauto.
Qed.

(** ** The order of the keys *)

Lemma insert_index_order {A : Type} (n : N) (k : string) (v : A) (o : list (string * A)) :
  Str.array_index k = Some n ->
  enumeration_order (map fst o) = true ->
  enumeration_order (map fst (insert_index n k v o)) = true.
Proof.
  intros Hk. induction o as [ | [k0 v0] rest IH ]; simpl; [reflexivity | ].
  intros Hord. apply andb_true_iff in Hord. destruct Hord as [Hhead Hrest].
  assert (Hfront : enumeration_order (k :: k0 :: map fst rest) = true
                   \/ exists n', Str.array_index k0 = Some n' /\ N.ltb n' n = true).
  { destruct (Str.array_index k0) as [n' | ] eqn:Hk0.
    - destruct (N.ltb n' n) eqn:Hlt; [right; eauto | left].
      apply N.ltb_ge in Hlt. simpl. rewrite Hhead, Hrest.
      replace (enumerated_before k k0) with true
        by (unfold enumerated_before; rewrite Hk, Hk0; symmetry; now apply N.leb_le).
      simpl. rewrite andb_true_r. apply forallb_forall. intros k' Hin.
      rewrite forallb_forall in Hhead. specialize (Hhead k' Hin).
      unfold enumerated_before in *. rewrite Hk. rewrite Hk0 in Hhead.
      destruct (Str.array_index k'); [ | reflexivity].
      apply N.leb_le. apply N.leb_le in Hhead. lia.
    - left. simpl. rewrite Hhead, Hrest.
      replace (enumerated_before k k0) with true
        by (unfold enumerated_before; now rewrite Hk, Hk0).
      simpl. rewrite andb_true_r. apply forallb_forall. intros k' Hin.
      rewrite forallb_forall in Hhead. specialize (Hhead k' Hin).
      unfold enumerated_before in *. rewrite Hk. rewrite Hk0 in Hhead.
      destruct (Str.array_index k'); [discriminate | reflexivity]. }
  destruct (Str.array_index k0) as [n' | ] eqn:Hk0.
  - destruct (N.ltb n' n) eqn:Hlt.
    + simpl. rewrite IH by exact Hrest. rewrite andb_true_r.
      apply forallb_forall. intros k' Hin. apply insert_index_keys in Hin.
      destruct Hin as [-> | Hin].
      * unfold enumerated_before. rewrite Hk0, Hk. apply N.leb_le.
        apply N.ltb_lt in Hlt. lia.
      * rewrite forallb_forall in Hhead. now apply Hhead.
    + destruct Hfront as [Hfront | [n'' [Heq Hlt']]]; [exact Hfront | congruence].
  - destruct Hfront as [Hfront | [n'' [Heq _]]]; [exact Hfront | discriminate].
Qed.

Lemma append_order (k : string) (keys : list string) :
  Str.array_index k = None ->
  enumeration_order keys = true -> enumeration_order (keys ++ [k]) = true.
Proof.
  intros Hk. induction keys as [ | k0 rest IH ]; simpl; [reflexivity | ].
  intros Hord. apply andb_true_iff in Hord. destruct Hord as [Hhead Hrest].
  rewrite IH by exact Hrest. rewrite andb_true_r.
  rewrite forallb_app, Hhead. simpl. rewrite andb_true_r.
  unfold enumerated_before. rewrite Hk. now destruct (Str.array_index k0).
Qed.

Lemma define_order {A : Type} (k : string) (v : A) (o : list (string * A)) :
  enumeration_order (map fst o) = true ->
  enumeration_order (map fst (define k v o)) = true.
Proof.
  intros Hord. unfold define. destruct (get k o).
  - now rewrite update_keys.
  - destruct (Str.array_index k) as [n | ] eqn:Hk.
    + now apply insert_index_order.
    + rewrite map_app. now apply append_order.
Qed.

Lemma set_order {A : Type} (k : string) (v : A) (o : list (string * A)) :
  enumeration_order (map fst o) = true ->
  enumeration_order (map fst (set k v o)) = true.
Proof.
  intros Hord. unfold set. destruct (get k o).
  - now rewrite update_keys.
  - destruct (String.eqb k "__proto__"); [exact Hord | now apply define_order].
Qed.

Lemma insert_index_names {A : Type} (n : N) (k : string) (v : A) (o : list (string * A)) :
  is_index k = true ->
  filter (fun k' => negb (is_index k')) (map fst (insert_index n k v o))
  = filter (fun k' => negb (is_index k')) (map fst o).
Proof.
  intros Hk. induction o as [ | [k0 v0] rest IH ]; simpl.
  - now rewrite Hk.
  - destruct (Str.array_index k0) as [n' | ]; [destruct (N.ltb n' n) | ]; simpl;
      rewrite ?Hk, ?IH; reflexivity.
Qed.

(** A new property whose name is not an array index comes last among
    such names; every other assignment leaves these names as they are. *)
Lemma set_names {A : Type} (k : string) (v : A) (o : list (string * A)) :
  filter (fun k' => negb (is_index k')) (map fst (set k v o))
  = (filter (fun k' => negb (is_index k')) (map fst o)
       ++ if negb (is_index k) && negb (String.eqb k "__proto__")
             && match get k o with Some _ => false | None => true end
          then [k] else [])%list.
Proof.
  unfold set. destruct (get k o) eqn:Hget.
  - rewrite update_keys, !andb_false_r. now rewrite app_nil_r.
  - destruct (String.eqb k "__proto__"); [now rewrite andb_false_r, app_nil_r | ].
    rewrite !andb_true_r. unfold define. rewrite Hget.
    unfold is_index at 3. destruct (Str.array_index k) as [n | ] eqn:Hk.
    + rewrite insert_index_names by (unfold is_index; now rewrite Hk).
      now rewrite app_nil_r.
    + rewrite map_app, filter_app. simpl. unfold is_index at 2. now rewrite Hk.
Qed.

Lemma add_fields_required fields : forall schema,
  required (fold_left add_field fields schema)
  = (required schema ++ map field_name (filter has_keywords fields))%list.
Proof.
  induction fields as [ | f rest IH ]; intros schema; simpl.
  - now rewrite app_nil_r.
  - rewrite IH. unfold add_field, has_keywords.
    destruct (_getKeywordByFieldType f); simpl; [ | reflexivity].
    now rewrite <- app_assoc.
Qed.

Lemma add_field_no_proto schema f :
  ~ In "__proto__" (map fst (properties schema)) ->
  ~ In "__proto__" (map fst (properties (add_field schema f))).
Proof.
  intros Hnot. unfold add_field.
  destruct (_getKeywordByFieldType f); simpl; [ | exact Hnot].
  now apply set_no_proto.
Qed.

Lemma add_fields_properties fields : forall schema k,
  ~ In "__proto__" (map fst (properties schema)) ->
  In k (map fst (properties (fold_left add_field fields schema)))
  <-> In k (map fst (properties schema))
      \/ (In k (map field_name (filter has_keywords fields)) /\ k <> "__proto__").
Proof.
  induction fields as [ | f rest IH ]; intros schema k Hnot; simpl.
  - tauto.
  - rewrite IH by now apply add_field_no_proto.
    unfold add_field, has_keywords.
    destruct (_getKeywordByFieldType f); simpl; [ | tauto].
    rewrite set_keys by exact Hnot. intuition congruence.
Qed.

Ltac by_field_type f :=
  repeat match goal with
         | |- context [String.eqb (field_type f) ?c] =>
             let E := fresh "E" in
             destruct (String.eqb (field_type f) c) eqn:E;
             [ apply String.eqb_eq in E; rewrite E in *;
               try congruence; simpl; try reflexivity | ]
         end.

Lemma has_keywords_representable field :
  field_type field <> "Email" -> field_type field <> "Email " ->
  has_keywords field = representable field.
Proof.
  intros He He'.
  unfold has_keywords, representable, supported, supported_types,
    _getKeywordByFieldType, includes, existsb.
  cbv zeta.
  by_field_type field.
  all: simpl; try reflexivity.
  destruct (options_of field); reflexivity.
Qed.

Lemma unique_name (fields : list FieldSchemaVO) (f g : FieldSchemaVO) :
  NoDup (map field_name fields) -> In f fields -> In g fields ->
  field_name f = field_name g -> f = g.
Proof.
  induction fields as [ | h rest IH ]; simpl; [tauto | ].
  intros Hnd Hf Hg Hname. inversion Hnd as [ | ? ? Hnotin Hrest ]; subst.
  destruct Hf as [-> | Hf], Hg as [-> | Hg]; auto.
  - exfalso. apply Hnotin. rewrite Hname. now apply in_map.
  - exfalso. apply Hnotin. rewrite <- Hname. now apply in_map.
Qed.

Lemma filter_ext_Forall {A : Type} (p q : A -> bool) (l : list A) :
  Forall (fun x => p x = q x) l -> filter p l = filter q l.
Proof.
  induction 1 as [ | x rest Hx _ IH ]; simpl; [reflexivity | ].
  now rewrite Hx, IH.
Qed.

(** C1 (the code as written): a field whose type tag is "Email" gets no
    keywords from [_getKeywordByFieldType], whose list of string types
    spells the tag with a trailing blank, and [getFieldsJSONSchema] leaves
    the field out of both [properties] and [required]. *)
Theorem email_field_is_left_out (n : string) (p : option FieldProperty) :
  let field := {| field_name := n; field_type := "Email"; field_property := p |} in
  _getKeywordByFieldType field = None
  /\ properties (json_schema_schema (getFieldsJSONSchema [field])) = []
  /\ required (json_schema_schema (getFieldsJSONSchema [field])) = [].
Proof. repeat split. Qed.

(** C5 (amended): for every list of field schemas, [required] is exactly
    the names, in input order, of the fields [_getKeywordByFieldType]
    gives a fragment; for a field whose type tag is not "Email" (nor that
    tag followed by a blank) that is the case exactly when its type is in
    the supported enumeration and it is not a [MultiSelect] without
    [property.options], so that on a list without such tags [required] is
    the names of those fields; the keys of [properties] are the names of
    [required], except the name [__proto__], under which an assignment
    creates no key; every listed name belongs to a field that has a
    fragment; and with unique names a field of an unsupported type (other
    than the tag "Email" followed by a blank) is in neither.
    [getFieldsJSONSchema] is total: no field type makes it throw. *)
Theorem schema_lists_representable_fields (fields : list FieldSchemaVO) :
  let schema := json_schema_schema (getFieldsJSONSchema fields) in
  required schema = map field_name (filter has_keywords fields)
  /\ (forall f, field_type f <> "Email" -> field_type f <> "Email " ->
        has_keywords f = representable f)
  /\ (Forall (fun f => field_type f <> "Email" /\ field_type f <> "Email ") fields ->
        required schema = map field_name (filter representable fields))
  /\ (forall k, In k (map fst (properties schema))
                <-> In k (required schema) /\ k <> "__proto__")
  /\ (forall k, In k (required schema) ->
        exists f, In f fields /\ field_name f = k /\ has_keywords f = true)
  /\ (NoDup (map field_name fields) ->
      forall f, In f fields -> supported f = false -> field_type f <> "Email " ->
        ~ In (field_name f) (required schema)
        /\ get (field_name f) (properties schema) = None).
Proof.
  intros schema.
  assert (Hreq : required schema = map field_name (filter has_keywords fields)).
  { unfold schema, getFieldsJSONSchema. simpl. now rewrite add_fields_required. }
  assert (Hkeys : forall k, In k (map fst (properties schema))
                            <-> In k (required schema) /\ k <> "__proto__").
  { intros k. rewrite Hreq. unfold schema, getFieldsJSONSchema. simpl.
    rewrite add_fields_properties by (simpl; tauto). simpl. tauto. }
  assert (Hhas : forall k, In k (required schema) ->
            exists f, In f fields /\ field_name f = k /\ has_keywords f = true).
  { intros k. rewrite Hreq. intros Hin.
    apply in_map_iff in Hin. destruct Hin as [f [Hname Hin]].
    apply filter_In in Hin. destruct Hin as [Hin Hrep]. eauto. }
  assert (Hout : NoDup (map field_name fields) ->
            forall f, In f fields -> supported f = false -> field_type f <> "Email " ->
              ~ In (field_name f) (required schema)).
  { intros Hnd f Hf Hsupp Hblank Hin.
    destruct (Hhas _ Hin) as [g [Hg [Hname Hkw]]].
    assert (g = f) by (eapply unique_name; eauto). subst g.
    rewrite has_keywords_representable in Hkw; auto.
    - unfold representable in Hkw. rewrite Hsupp in Hkw. discriminate.
    - intros Hemail. unfold supported in Hsupp. rewrite Hemail in Hsupp. discriminate. }
  split; [exact Hreq | ].
  split; [intros f; apply has_keywords_representable | ].
  split.
  { intros Hno. rewrite Hreq. f_equal. apply filter_ext_Forall.
    eapply Forall_impl; [ | exact Hno].
    intros f [He He']. now apply has_keywords_representable. }
  split; [exact Hkeys | ]. split; [exact Hhas | ].
  intros Hnd f Hf Hsupp Hblank. split; [now apply Hout | ].
  apply get_None_keys. rewrite Hkeys. intros [Hin _]. now apply (Hout Hnd f).
Qed.

(** C10: [buildQueryString({})] and [buildQueryString({a:undefined,
    b:null})] are the empty string; with no required names the function
    never throws; an entry whose value is [undefined], [null] (or an empty
    array or the empty string) is skipped: removing it does not change the
    result; a non-empty array contributes the single pair of its
    URL-encoded key and its URL-encoded JSON text, wherever it stands
    among the entries; the result is the empty string exactly when no
    entry survives, otherwise it is a question mark followed by the pairs
    of the surviving entries, in order, joined by ampersands. *)
Theorem buildQueryString_filters :
  buildQueryString [] [] = inr EmptyString
  /\ buildQueryString [("a", VUndefined); ("b", VNull)] [] = inr EmptyString
  /\ (forall params, exists s,
        buildQueryString params [] = inr s
        /\ (s = EmptyString <-> existsb (fun kv => survives (snd kv)) params = false)
        /\ (s = EmptyString \/ Str.starts_with "?" s = true))
  /\ (forall before key v after,
        survives v = false ->
        buildQueryString (before ++ (key, v) :: after)%list []
        = buildQueryString (before ++ after)%list [])
  /\ (forall key x xs,
        buildQueryString [(key, VArr (x :: xs))] []
        = inr ("?" ++ encodeURIComponent key ++ "="
                 ++ encodeURIComponent (string_of_json (JSON_stringify (VArr (x :: xs))))))
  /\ (forall key, buildQueryString [(key, VArr [])] [] = inr EmptyString
                  /\ buildQueryString [(key, VUndefined)] [] = inr EmptyString
                  /\ buildQueryString [(key, VNull)] [] = inr EmptyString)
  /\ (forall params,
        buildQueryString params []
        = inr match query_pairs params with
              | [] => EmptyString
              | pairs => "?" ++ Str.join "&" pairs
              end)
  /\ (forall before key x xs after,
        query_pairs (before ++ (key, VArr (x :: xs)) :: after)%list
        = (query_pairs before
             ++ (encodeURIComponent key ++ "="
                   ++ encodeURIComponent
                        (string_of_json (JSON_stringify (VArr (x :: xs)))))%string
             :: query_pairs after)%list)
  /\ (forall before key v after,
        survives v = false ->
        query_pairs (before ++ (key, v) :: after)%list
        = (query_pairs before ++ query_pairs after)%list).
Proof.
  split; [reflexivity | ]. split; [reflexivity | ].
  split; [ | split; [ | split; [reflexivity | split; [intros; repeat split | ] ] ] ].
  - intros params. rewrite buildQueryString_no_required.
    eexists. split; [reflexivity | ].
    rewrite <- queryParams_empty.
    destruct (flat_map _ params) as [ | pair rest ]; simpl.
    + split; [tauto | now left].
    + split; [ split; discriminate | right; reflexivity ].
  - intros before key v after Hv.
    rewrite !buildQueryString_no_required, !flat_map_app. simpl.
    now rewrite (query_param_skipped key v Hv).
  - split; [ | split ].
    + intros params. rewrite buildQueryString_no_required, queryParams_are_pairs.
      reflexivity.
    + intros before key x xs after. unfold query_pairs.
      rewrite filter_app, map_app. reflexivity.
    + intros before key v after Hv. unfold query_pairs.
      rewrite filter_app, map_app. cbn [filter snd]. now rewrite Hv.
Qed.

(** C3: the endpoint [list_records] requests does not depend on
    [filterByFormula]: two calls that agree on every other parameter
    build the same endpoint, and run the same action (same calls, same
    result) from any log. *)
Theorem list_records_ignores_filterByFormula
    (node_id : string) (sort : option (list sort_item))
    (pageNum pageSize : option number) (fields viewId : option string)
    (formula1 formula2 : option string) :
  let call1 := {| lr_node_id := node_id; lr_sort := sort; lr_pageNum := pageNum;
                  lr_pageSize := pageSize; lr_fields := fields; lr_viewId := viewId;
                  lr_filterByFormula := formula1 |} in
  let call2 := {| lr_node_id := node_id; lr_sort := sort; lr_pageNum := pageNum;
                  lr_pageSize := pageSize; lr_fields := fields; lr_viewId := viewId;
                  lr_filterByFormula := formula2 |} in
  list_records_endpoint call1 = list_records_endpoint call2
  /\ forall log, list_records call1 log = list_records call2 log.
Proof. split; reflexivity. Qed.

Lemma split_cons sep s : exists seg segs, Str.split sep s = seg :: segs.
Proof.
  induction s as [ | c rest [seg [segs IH]] ]; simpl; eauto.
  destruct (Ascii.eqb c sep); eauto. rewrite IH. eauto.
Qed.

Lemma pop_cons {A : Type} (x : A) (l : list A) : exists y, Str.pop (x :: l) = Some y.
Proof.
  revert x. induction l as [ | z rest IH ]; intros x; simpl; eauto.
Qed.

(** C4 (the code as written): when the path of the URL is "/", the name
    [uploadFileToSpace] derives is the empty string; and whatever the
    path, [split] yields at least one segment, so the derived name is the
    last segment and the time-stamped default is never used. *)
Theorem derived_file_name_is_last_segment :
  file_name_of_pathname "/" = EmptyString
  /\ forall pathname, exists segment,
       Str.pop (Str.split "/" pathname) = Some segment
       /\ file_name_of_pathname pathname = segment.
Proof.
  split; [reflexivity | ].
  intros pathname. unfold file_name_of_pathname.
  destruct (split_cons "/" pathname) as [seg [segs ->]].
  destruct (pop_cons seg segs) as [y ->]. eauto.
Qed.

Lemma digit_char_is_digit (n : N) : JsDate.is_digit (Str.digit_char n) = true.
Proof.
  unfold Str.digit_char.
  assert (Hlt : (N.modulo n 10 < 10)%N) by (apply N.mod_lt; discriminate).
  destruct (N.modulo n 10) as [ | q ]; [reflexivity | ].
  do 4 (destruct q as [ q | q | ]; try reflexivity; try lia).
Qed.

Lemma toISOString_shape (t : Z) : JsDate.is_iso_utc (JsDate.toISOString t) = true.
Proof.
  unfold JsDate.toISOString.
  destruct (JsDate.civil_from_days (t / JsDate.msPerDay)) as [[y m] d].
  unfold JsDate.is_iso_utc, JsDate.pad.
  destruct ((0 <=? y)%Z && (y <=? 9999)%Z); [ | destruct (Z.ltb y 0) ].
  - apply orb_true_iff; left. apply orb_true_iff; left.
    cbn -[Str.digit_char N.div Z.to_N Z.div Z.modulo Z.abs].
    now rewrite !digit_char_is_digit.
  - apply orb_true_iff; right.
    cbn -[Str.digit_char N.div Z.to_N Z.div Z.modulo Z.abs].
    now rewrite !digit_char_is_digit.
  - apply orb_true_iff; left. apply orb_true_iff; right.
    cbn -[Str.digit_char N.div Z.to_N Z.div Z.modulo Z.abs].
    now rewrite !digit_char_is_digit.
Qed.

(** ** Cell values *)

Lemma matched_cells field raws :
  flat_map (fun optionName => match find_option field optionName with
                              | Some o => [VStr (option_id o)]
                              | None => []
                              end) raws
  = map VStr (matched_ids field raws).
Proof.
  unfold matched_ids.
  induction raws as [ | raw rest IH ]; simpl; [reflexivity | ].
  rewrite IH, map_app. destruct (find_option field raw); reflexivity.
Qed.

Lemma find_option_sound field raw o :
  find_option field raw = Some o ->
  exists opts, options_of field = Some opts /\ In o opts /\ raw = VStr (option_name o).
Proof.
  unfold find_option. destruct (options_of field) as [opts | ]; [ | discriminate].
  destruct raw; try discriminate. intros Hfind.
  apply find_some in Hfind. destruct Hfind as [Hin Heq].
  apply String.eqb_eq in Heq. subst. eauto.
Qed.

Lemma matched_ids_are_matched field raws :
  Forall (is_matched_id field raws) (matched_ids field raws).
Proof.
  unfold matched_ids. apply Forall_forall. intros id Hin.
  apply in_flat_map in Hin. destruct Hin as [raw [Hraw Hin]].
  destruct (find_option field raw) as [o | ] eqn:E; [ | contradiction].
  destruct Hin as [<- | []].
  destruct (find_option_sound _ _ _ E) as [opts [Ho [Hin ->]]].
  exists opts, o. auto.
Qed.

Lemma matched_ids_spec field opts names :
  options_of field = Some opts ->
  matched_ids field (map VStr names) = spec_option_ids opts names.
Proof.
  intros Ho. unfold matched_ids.
  induction names as [ | name rest IH ]; simpl; [reflexivity | ].
  rewrite IH. unfold find_option. rewrite Ho.
  destruct (find _ opts); reflexivity.
Qed.

(** C2 (amended): for a [SingleSelect] field the cell value is the raw
    value turned into a string by [String] (whose [TypeError], on a raw
    value it cannot convert, is the outcome), so the raw string of an
    option's name stays that name; for a [MultiSelect] field a raw array
    gives the list of the ids of the options whose name is one of its
    elements, a raw string gives the list of the at most one id of the
    option of that name, never a name, and every other raw value gives
    [null]. *)
Theorem select_cell_values (field : FieldSchemaVO) (raw : value) :
  (field_type field = "SingleSelect" ->
     _getCellValueByFieldType field raw
     = match ToString raw with inr s => inr (VStr s) | inl e => inl e end
     /\ (forall name, raw = VStr name ->
           _getCellValueByFieldType field raw = inr (VStr name)))
  /\ (field_type field = "MultiSelect" ->
        (forall names, raw = VArr names ->
           _getCellValueByFieldType field raw
           = inr (VArr (map VStr (matched_ids field names)))
           /\ Forall (is_matched_id field names) (matched_ids field names))
        /\ (forall name, raw = VStr name ->
              _getCellValueByFieldType field raw
              = inr (VArr (map VStr (matched_ids field [raw])))
              /\ Forall (is_matched_id field [raw]) (matched_ids field [raw])
              /\ (length (matched_ids field [raw]) <= 1)%nat)
        /\ ((forall names, raw <> VArr names) -> (forall name, raw <> VStr name) ->
              _getCellValueByFieldType field raw = inr VNull)).
Proof.
  unfold _getCellValueByFieldType. split; intros Ht; rewrite Ht; simpl.
  - split; [reflexivity | intros name ->; reflexivity].
  - split; [ | split ].
    + intros names ->. split; [now rewrite matched_cells | apply matched_ids_are_matched].
    + intros name ->. split; [ | split ].
      * unfold matched_ids. simpl. destruct (find_option field (VStr name)); reflexivity.
      * apply matched_ids_are_matched.
      * unfold matched_ids. simpl. destruct (find_option field (VStr name)); simpl; lia.
    + intros Harr Hstr. destruct raw as [ | | b | n | s | xs | ps ]; try reflexivity.
      * exfalso. now apply (Hstr s).
      * exfalso. now apply (Harr xs).
Qed.

(** C8: with options o1/Red and o2/Blue, a [MultiSelect] field turns the
    raw array of "Red" and "Green" into the list of the single id o1; in
    general an array of names becomes the ids of the names matched
    exactly, unmatched names dropped, never an error, and a single raw
    string becomes the one-element list of its id, or the empty list when
    no option has that name. *)
Theorem multiselect_names_to_ids (n : string) (mx : option number) :
  let field_with opts :=
    {| field_name := n; field_type := "MultiSelect";
       field_property := Some {| prop_options := Some opts; prop_max := mx |} |} in
  _getCellValueByFieldType
    (field_with [ {| option_id := "o1"; option_name := "Red" |};
                  {| option_id := "o2"; option_name := "Blue" |} ])
    (VArr [VStr "Red"; VStr "Green"])
  = inr (VArr [VStr "o1"])
  /\ (forall opts names,
        _getCellValueByFieldType (field_with opts) (VArr (map VStr names))
        = inr (VArr (map VStr (spec_option_ids opts names))))
  /\ (forall opts name,
        _getCellValueByFieldType (field_with opts) (VStr name)
        = inr (VArr (map VStr (spec_option_ids opts [name])))
        /\ (length (spec_option_ids opts [name]) <= 1)%nat
        /\ (spec_option_ids opts [name] = []
            <-> forall o, In o opts -> option_name o <> name)).
Proof.
  intros field_with. split; [reflexivity | ]. split.
  - intros opts names. unfold _getCellValueByFieldType. simpl.
    rewrite matched_cells.
    now rewrite (matched_ids_spec (field_with opts) opts names eq_refl).
  - intros opts name. split; [ | split ].
    + unfold _getCellValueByFieldType, find_option. simpl.
      destruct (find _ opts); reflexivity.
    + simpl. destruct (find _ opts); simpl; lia.
    + simpl. destruct (find _ opts) as [o | ] eqn:E.
      * split; [discriminate | ]. intros Hall.
        apply find_some in E. destruct E as [Hin Heq].
        apply String.eqb_eq in Heq. exfalso. exact (Hall o Hin Heq).
      * split; [ | reflexivity]. intros _ o Hin Heq.
        pose proof (find_none _ _ E o Hin) as Hne. simpl in Hne.
        apply String.eqb_neq in Hne. contradiction.
Qed.

(** C9: for a [DateTime] field the raw empty string gives [null]; the raw
    string 2024-01-01 gives 2024-01-01T00:00:00.000Z; and every non-empty
    raw string that [Date] parses to a valid time gives the
    [toISOString] text of that time, which has the ISO 8601 UTC shape
    (date, T, time with milliseconds, Z). *)
Theorem datetime_cell_values (n : string) (p : option FieldProperty) :
  let field := {| field_name := n; field_type := "DateTime"; field_property := p |} in
  _getCellValueByFieldType field (VStr EmptyString) = inr VNull
  /\ _getCellValueByFieldType field (VStr "2024-01-01")
     = inr (VStr "2024-01-01T00:00:00.000Z")
  /\ JsDate.is_iso_utc "2024-01-01T00:00:00.000Z" = true
  /\ forall raw t,
       raw <> EmptyString -> new_Date raw = Some t ->
       _getCellValueByFieldType field (VStr raw) = inr (VStr (JsDate.toISOString t))
       /\ JsDate.is_iso_utc (JsDate.toISOString t) = true.
Proof.
  intros field. split; [reflexivity | ]. split; [reflexivity | ].
  split; [reflexivity | ].
  intros raw t Hne Hdate. split; [ | apply toISOString_shape].
  unfold _getCellValueByFieldType. simpl.
  apply String.eqb_neq in Hne. rewrite Hne. simpl. now rewrite Hdate.
Qed.

(** ** The action boundary *)

Lemma runs_ret {A : Type} (a : A) log (Q : result A -> list call -> Prop) :
  Q (inr a) [] -> runs (ret a) log Q.
Proof. intros HQ. exists []. simpl. now rewrite app_nil_r. Qed.

Lemma runs_throw {A : Type} (e : exn) log (Q : result A -> list call -> Prop) :
  Q (inl e) [] -> runs (throw e) log Q.
Proof. intros HQ. exists []. simpl. now rewrite app_nil_r. Qed.

Lemma runs_lift {A : Type} (r : result A) log (Q : result A -> list call -> Prop) :
  Q r [] -> runs (lift r) log Q.
Proof. intros HQ. exists []. simpl. now rewrite app_nil_r. Qed.

Lemma runs_bind {A B : Type} (m : M A) (k : A -> M B) log
    (Q : result B -> list call -> Prop) :
  runs m log (fun r new =>
                match r with
                | inl e => Q (inl e) new
                | inr a => runs (k a) (log ++ new)%list
                             (fun r' new' => Q r' (new ++ new')%list)
                end) ->
  runs (bind m k) log Q.
Proof.
  unfold runs, bind. intros [new [Hlog HQ]].
  destruct (m log) as [[e | a] log']; simpl in *; subst log'.
  - exists new. auto.
  - destruct HQ as [new' [Hlog' HQ']].
    exists (new ++ new')%list. rewrite app_assoc. auto.
Qed.

Lemma runs_try_catch {A : Type} (m : M A) (handler : exn -> M A) log
    (Q : result A -> list call -> Prop) :
  runs m log (fun r new =>
                match r with
                | inr a => Q (inr a) new
                | inl e => runs (handler e) (log ++ new)%list
                             (fun r' new' => Q r' (new ++ new')%list)
                end) ->
  runs (try_catch m handler) log Q.
Proof.
  unfold runs, try_catch. intros [new [Hlog HQ]].
  destruct (m log) as [[e | a] log']; simpl in *; subst log'.
  - destruct HQ as [new' [Hlog' HQ']].
    exists (new ++ new')%list. rewrite app_assoc. auto.
  - exists new. auto.
Qed.

Lemma runs_fetch {J : Type} (respond : responder J) succeeded req log
    (Q : result (Response J) -> list call -> Prop) :
  Q (respond log req)
    [{| call_request := req;
        call_succeeded := answered succeeded (respond log req) |}] ->
  runs (fetch respond succeeded req) log Q.
Proof. intros HQ. eexists. split; [reflexivity | exact HQ]. Qed.

Lemma runs_fetchFromAPI {T : Type} (respond : responder (ResponseVO T))
    endpoint options log (Q : result (ResponseVO T) -> list call -> Prop) :
  Q (api_result (respond log (api_request endpoint options)))
    [{| call_request := api_request endpoint options;
        call_succeeded :=
          answered api_succeeded (respond log (api_request endpoint options)) |}] ->
  runs (fetchFromAPI respond endpoint options) log Q.
Proof.
  intros HQ. unfold fetchFromAPI.
  apply runs_bind, runs_fetch. unfold api_result in HQ.
  destruct (respond log (api_request endpoint options)) as [e | response];
    [exact HQ | ].
  apply runs_bind, runs_lift.
  destruct (json response) as [e | responseJson]; [exact HQ | ].
  destruct (negb (ok response)); [apply runs_throw | apply runs_ret]; exact HQ.
Qed.

Lemma api_result_answered {T : Type} (answer : result (Response (ResponseVO T)))
    (responseJson : ResponseVO T) :
  api_result answer = inr responseJson ->
  answered api_succeeded answer = success responseJson.
Proof.
  unfold api_result, answered, api_succeeded.
  destruct answer as [e | response]; [discriminate | ].
  destruct (json response) as [e | j]; [discriminate | ].
  destruct (ok response); simpl; [ | discriminate].
  now intros [= ->].
Qed.

Ltac mstep :=
  lazymatch goal with
  | |- runs (bind _ _) _ _ => apply runs_bind
  | |- runs (ret _) _ _ => apply runs_ret
  | |- runs (throw _) _ _ => apply runs_throw
  | |- runs (lift _) _ _ => apply runs_lift
  | |- runs (fetchFromAPI _ _ _) _ _ => apply runs_fetchFromAPI
  | |- runs (fetch _ _ _) _ _ => apply runs_fetch
  | |- runs (data_of _ _) _ _ => unfold data_of
  | |- runs (getDatasheetFieldsSchema _) _ _ => unfold getDatasheetFieldsSchema
  | |- runs (createDatasheetRecord _ _) _ _ => unfold createDatasheetRecord
  | |- runs (uploadFileToSpace _ _ _) _ _ => unfold uploadFileToSpace
  | |- runs (_fetchFileViaURL _) _ _ => unfold _fetchFileViaURL
  | |- runs (match ?x with _ => _ end) _ _ => destruct x eqn:?
  | |- match ?x with _ => _ end => destruct x eqn:?
  end.

Ltac flags :=
  repeat match goal with
         | E : api_result _ = inr _ |- _ => apply api_result_answered in E
         | E : negb _ = false |- _ => apply negb_false_iff in E
         end.

Ltac envelope :=
  lazymatch goal with
  | |- body_post (inl _) _ => exact I
  | |- body_post (inr (formatToolResponse (failure _) true)) _ =>
      left; eexists; reflexivity
  | |- body_post (inr (formatToolResponse (succeeded_with _) false)) _ =>
      right; split; [eexists; reflexivity | ];
      flags;
      repeat match goal with E : answered _ _ = _ |- _ => rewrite E end;
      unfold all_succeeded; simpl; repeat constructor; simpl;
      first [ congruence
            | unfold api_succeeded;
              repeat match goal with E : _ = _ |- _ => rewrite E end;
              reflexivity ]
  end.

Ltac action_body_post := repeat mstep; try envelope.

Lemma list_spaces_body_post log : runs list_spaces_body log body_post.
Proof. unfold list_spaces_body. action_body_post. Qed.

Lemma search_nodes_body_post a log : runs (search_nodes_body a) log body_post.
Proof. unfold search_nodes_body. action_body_post. Qed.

Lemma list_records_body_post a log : runs (list_records_body a) log body_post.
Proof. unfold list_records_body. action_body_post. Qed.

Lemma get_fields_schema_body_post node_id log :
  runs (get_fields_schema_body node_id) log body_post.
Proof. unfold get_fields_schema_body. action_body_post. Qed.

Lemma create_record_body_post a log : runs (create_record_body a) log body_post.
Proof. unfold create_record_body. action_body_post. Qed.

Lemma upload_attachment_via_url_body_post a log :
  runs (upload_attachment_via_url_body a) log body_post.
Proof. unfold upload_attachment_via_url_body. action_body_post. Qed.

Lemma action_body_post i log : runs (action_body i) log body_post.
Proof.
  destruct i; simpl;
    auto using list_spaces_body_post, search_nodes_body_post, list_records_body_post,
      get_fields_schema_body_post, create_record_body_post,
      upload_attachment_via_url_body_post.
Qed.

Lemma action_is_guarded_body i : action i = try_catch (action_body i) on_error.
Proof. destruct i; reflexivity. Qed.

Lemma failure_envelope_text m :
  formatToolResponse (failure (VStr m)) true
  = {| content := [ {| content_type := "text"; mimeType := "application/json";
                       content_text := Some (failure_text m) |} ];
       isError := true |}.
Proof. reflexivity. Qed.

Lemma guarded_body_returns (m : M CallToolResult) log :
  runs m log body_post ->
  exists env new,
    try_catch m on_error log = (inr env, (log ++ new)%list)
    /\ (failure_envelope env \/ (success_envelope env /\ all_succeeded new))
    /\ (forall e, fst (m log) = inl e ->
          env = formatToolResponse (failure (VStr (error_message e))) true).
Proof.
  unfold runs, try_catch, on_error, ret. intros [new [Hlog Hpost]].
  destruct (m log) as [[e | env] log']; simpl in *; subst log'.
  - eexists. exists new. split; [reflexivity | ]. split.
    + left. eexists. reflexivity.
    + now intros e' [= <-].
  - exists env, new. split; [reflexivity | ]. split; [exact Hpost | discriminate].
Qed.

(** C6: every action, run from any log against any remote, returns an
    envelope: no exception leaves it. The envelope is a failure envelope
    (the object with [success:false] and [message] alone, no [data], and
    [isError] true) or a success envelope returned after calls that were
    all answered with success; so a validation failure, a remote
    non-success or any error thrown in the body yields the failure
    envelope, which for a thrown error carries that error's message. *)
Theorem action_boundary (i : invocation) (log : list call) :
  exists env new,
    action i log = (inr env, (log ++ new)%list)
    /\ (failure_envelope env \/ (success_envelope env /\ all_succeeded new))
    /\ (forall e, fst (action_body i log) = inl e ->
          env = formatToolResponse (failure (VStr (error_message e))) true)
    /\ (failure_envelope env ->
          isError env = true
          /\ exists m, content env
                       = [ {| content_type := "text"; mimeType := "application/json";
                              content_text := Some (failure_text m) |} ]).
Proof.
  rewrite action_is_guarded_body.
  destruct (guarded_body_returns _ log (action_body_post i log))
    as [env [new [Hrun [Hshape Hthrown]]]].
  exists env, new.
  split; [exact Hrun | ]. split; [exact Hshape | ]. split; [exact Hthrown | ].
  intros [m ->]. split; [reflexivity | exists m; reflexivity].
Qed.

(** C7: if the remote does not answer the schema fetch of [create_record]
    with success (the fetch or the body decoding throws, the status is not
    ok, or the decoded envelope has [success:false]), the action returns a
    failure envelope and its only call, if any, is that schema fetch: the
    write is never issued. *)
Theorem write_not_issued_after_failed_schema_fetch
    (a : create_record_args) (log : list call) :
  answered api_succeeded (remote_fields remote log (schema_request (cr_node_id a)))
  = false ->
  exists m new,
    create_record a log
    = (inr (formatToolResponse (failure (VStr m)) true), (log ++ new)%list)
    /\ (new = []
        \/ new = [ {| call_request := schema_request (cr_node_id a);
                      call_succeeded := false |} ]).
Proof.
  intros Hfail.
  assert (Hruns : runs (create_record a) log
                    (fun r new =>
                       (exists m, r = inr (formatToolResponse (failure (VStr m)) true))
                       /\ (new = []
                           \/ new = [ {| call_request := schema_request (cr_node_id a);
                                         call_succeeded := false |} ]))).
  { unfold create_record, create_record_body, on_error, schema_request in *.
    apply runs_try_catch.
    destruct (String.eqb (cr_node_id a) EmptyString) eqn:Hid.
    { apply runs_throw, runs_ret. simpl. eauto. }
    destruct (cr_fields a), (cr_attachments_fields a).
    4: { apply runs_throw, runs_ret. simpl. eauto. }
    all: apply runs_bind; unfold getDatasheetFieldsSchema; rewrite Hid;
      apply runs_fetchFromAPI; rewrite Hfail;
      destruct (api_result _) as [e | getFieldsResult] eqn:Hres;
      [ apply runs_ret; simpl; eauto | ];
      apply api_result_answered in Hres; rewrite Hfail in Hres; rewrite <- Hres;
      simpl; apply runs_throw, runs_ret; simpl; eauto. }
  destruct Hruns as [new [Hlog [[m Hres] Hnew]]].
  exists m, new. split; [ | exact Hnew].
  destruct (create_record a log) as [r log']; simpl in *. now subst.
Qed.

Lemma get_without_eq {A : Type} (k : string) (o : list (string * A)) :
  get k (without k o) = None.
Proof.
  induction o as [ | [k0 v0] rest IH ]; simpl; [reflexivity | ].
  destruct (String.eqb k0 k) eqn:E; simpl; [exact IH | now rewrite E].
Qed.

Lemma get_without_ne {A : Type} (k k' : string) (o : list (string * A)) :
  k <> k' -> get k (without k' o) = get k o.
Proof.
  intros Hne. induction o as [ | [k0 v0] rest IH ]; simpl; [reflexivity | ].
  destruct (String.eqb_spec k0 k') as [-> | Hne']; simpl.
  - destruct (String.eqb_spec k' k); [congruence | exact IH].
  - now rewrite IH.
Qed.

(** X1: a node of [search_nodes] is returned with its [id] renamed to
    [node_id]: the result has no [id] key, its [node_id] is the node's
    [id] ([undefined] when the node had none), and every other key keeps
    its value. *)
Theorem node_id_is_renamed (node : object) :
  exists props,
    to_tool_node node = VObj props
    /\ get "id" props = None
    /\ get "node_id" props = Some (get_value "id" node)
    /\ forall k, k <> "id" -> k <> "node_id" -> get k props = get k node.
Proof.
  unfold to_tool_node. eexists. split; [reflexivity | ]. split; [ | split ].
  - rewrite get_define_ne by discriminate. apply get_without_eq.
  - apply get_define_eq.
  - intros k Hid Hnode. rewrite get_define_ne by assumption.
    now apply get_without_ne.
Qed.

Lemma get_attachment_values (k : string) (attachments_fields : list (string * list value)) :
  get k (attachment_values attachments_fields)
  = match get k attachments_fields with
    | Some attachments => Some (VArr attachments)
    | None => None
    end.
Proof.
  unfold attachment_values.
  induction attachments_fields as [ | [k0 v0] rest IH ]; simpl; [reflexivity | ].
  destruct (String.eqb k0 k); auto.
Qed.

Lemma read_get_value (k : string) (o : object) :
  inherited k = false -> read k o = Value (get_value k o).
Proof.
  intros Hinh. unfold read, get_value. destruct (get k o); [reflexivity | ].
  unfold inherited in Hinh. apply orb_false_iff in Hinh. destruct Hinh as [-> ->].
  reflexivity.
Qed.

Lemma read_own (k : string) (o : object) (v : value) :
  get k o = Some v -> read k o = Value v.
Proof. intros Hget. unfold read. now rewrite Hget. Qed.

Lemma read_absent (k : string) (o : object) :
  get k o = None -> inherited k = false -> read k o = Value VUndefined.
Proof.
  intros Hget Hinh. unfold read. rewrite Hget.
  unfold inherited in Hinh. apply orb_false_iff in Hinh. destruct Hinh as [-> ->].
  reflexivity.
Qed.

Lemma add_attachments_cases (attachments_fields : list (string * list value))
    (cells : object) (f : FieldSchemaVO) :
  let fieldValue := read (field_name f) (attachment_values attachments_fields) in
  (fieldValue = Value VUndefined
   /\ add_attachments attachments_fields cells f = cells)
  \/ (exists v, fieldValue = Value v /\ v <> VUndefined
                /\ add_attachments attachments_fields cells f = set (field_name f) v cells)
  \/ (exists m, fieldValue = Method m
                /\ add_attachments attachments_fields cells f
                   = set (field_name f) VUndefined cells).
Proof.
  intros fieldValue. unfold add_attachments. fold fieldValue.
  destruct fieldValue as [v | m]; [ | eauto].
  destruct v;
    first [ left; split; reflexivity
          | right; left; eexists; repeat split; discriminate ].
Qed.

Lemma overlay_elsewhere (attachments_fields : list (string * list value))
    (fieldsSchema : list FieldSchemaVO) :
  forall (cells : object) (k : string),
    ~ In k (map field_name fieldsSchema)
    \/ read k (attachment_values attachments_fields) = Value VUndefined ->
    get k (fold_left (add_attachments attachments_fields) fieldsSchema cells) = get k cells.
Proof.
  induction fieldsSchema as [ | f rest IH ]; intros cells k Hk; simpl; [reflexivity | ].
  rewrite IH by (simpl in Hk; tauto).
  destruct (add_attachments_cases attachments_fields cells f)
    as [[_ ->] | [[v [Hread [Hdef ->]]] | [m [Hread ->]]]];
    [reflexivity | | ].
  - apply get_set_ne. intros ->. simpl in Hk. destruct Hk as [Hk | Hk]; [tauto | ].
    congruence.
  - apply get_set_ne. intros ->. simpl in Hk. destruct Hk as [Hk | Hk]; [tauto | ].
    congruence.
Qed.

Lemma overlay_no_proto (attachments_fields : list (string * list value))
    (fieldsSchema : list FieldSchemaVO) :
  forall cells : object,
    ~ In "__proto__" (map fst cells) ->
    ~ In "__proto__"
        (map fst (fold_left (add_attachments attachments_fields) fieldsSchema cells)).
Proof.
  induction fieldsSchema as [ | f rest IH ]; intros cells Hnot; simpl; [exact Hnot | ].
  apply IH.
  destruct (add_attachments_cases attachments_fields cells f)
    as [[_ ->] | [[v [_ [_ ->]]] | [m [_ ->]]]]; auto using set_no_proto.
Qed.

(** X2: the overlay of [attachments_fields] in [create_record]: for a
    schema field whose name is a key of [attachments_fields], the cell is
    the array of attachments given under that name, whatever the coerced
    cells held there; a cell whose name is not a schema field, or is
    neither a key of [attachments_fields] nor a name of
    [Object.prototype], is left as it was, so an attachment key that
    names no schema field is ignored; and the name [__proto__] never
    becomes a cell. *)
Theorem attachments_overlay (attachments_fields : list (string * list value))
    (fieldsSchema : list FieldSchemaVO) (cells : object) (k : string) :
  let merged := fold_left (add_attachments attachments_fields) fieldsSchema cells in
  (In k (map field_name fieldsSchema) -> k <> "__proto__" ->
   forall attachments, get k attachments_fields = Some attachments ->
                       get k merged = Some (VArr attachments))
  /\ (~ In k (map field_name fieldsSchema)
      \/ (get k attachments_fields = None /\ inherited k = false) ->
      get k merged = get k cells)
  /\ (get "__proto__" cells = None -> get "__proto__" merged = None).
Proof.
  intros merged. split; [ | split ].
  - unfold merged. clear merged. revert cells.
    induction fieldsSchema as [ | f rest IH ]; intros cells Hin Hproto xs Hget;
      simpl in *; [tauto | ].
    destruct (in_dec string_dec k (map field_name rest)) as [Hrest | Hrest].
    + now apply IH.
    + destruct Hin as [<- | Hin]; [ | contradiction].
      rewrite overlay_elsewhere by tauto.
      assert (Hread : read (field_name f) (attachment_values attachments_fields)
                      = Value (VArr xs)).
      { apply read_own. now rewrite get_attachment_values, Hget. }
      destruct (add_attachments_cases attachments_fields cells f)
        as [[Hu _] | [[w [Hw [_ ->]]] | [m [Hm _]]]]; [congruence | | congruence].
      rewrite get_set_eq by exact Hproto. congruence.
  - intros Hk. apply overlay_elsewhere. destruct Hk as [Hk | [Hget Hinh]]; [now left | ].
    right. apply read_absent; [ | exact Hinh].
    now rewrite get_attachment_values, Hget.
  - intros Hnone. apply get_None_keys. apply overlay_no_proto.
    now apply get_None_keys.
Qed.

(** ** The generated schema, continued *)

Lemma add_fields_constants fields : forall schema,
  schema_type (fold_left add_field fields schema) = schema_type schema
  /\ additionalProperties (fold_left add_field fields schema) = additionalProperties schema.
Proof.
  induction fields as [ | f rest IH ]; intros schema; simpl; [tauto | ].
  destruct (IH (add_field schema f)) as [-> ->].
  unfold add_field. destruct (_getKeywordByFieldType f); auto.
Qed.

Lemma add_fields_NoDup fields : forall schema,
  NoDup (map fst (properties schema)) ->
  NoDup (map fst (properties (fold_left add_field fields schema))).
Proof.
  induction fields as [ | f rest IH ]; intros schema Hnd; simpl; [assumption | ].
  apply IH. unfold add_field.
  destruct (_getKeywordByFieldType f); simpl; [now apply set_NoDup | assumption].
Qed.

Lemma add_fields_keys_in_order fields : forall schema,
  NoDup (map field_name fields) ->
  Forall (fun f => field_name f <> "__proto__" /\ Str.array_index (field_name f) = None)
    fields ->
  (forall f, In f fields -> ~ In (field_name f) (map fst (properties schema))) ->
  map fst (properties (fold_left add_field fields schema))
  = (map fst (properties schema) ++ map field_name (filter has_keywords fields))%list.
Proof.
  induction fields as [ | f rest IH ]; intros schema Hnd Hnames Hfresh; simpl.
  - now rewrite app_nil_r.
  - inversion Hnd as [ | ? ? Hnotin Hrest ]; subst.
    inversion Hnames as [ | ? ? [Hproto Hidx] Hnames' ]; subst.
    unfold add_field at 2, has_keywords at 1.
    destruct (_getKeywordByFieldType f) as [keywords | ] eqn:E.
    + rewrite IH; simpl; auto.
      * rewrite set_fresh by (auto; apply Hfresh; now left).
        rewrite map_app. simpl. now rewrite <- app_assoc.
      * intros g Hg. rewrite set_define by exact Hproto. rewrite define_keys.
        intros [Heq | Hin].
        -- apply Hnotin. rewrite <- Heq. now apply in_map.
        -- apply (Hfresh g); [now right | assumption].
    + apply IH; auto. intros g Hg. apply Hfresh. now right.
Qed.

Lemma add_fields_get_elsewhere fields : forall schema k,
  ~ In k (map field_name fields) ->
  get k (properties (fold_left add_field fields schema)) = get k (properties schema).
Proof.
  induction fields as [ | f rest IH ]; intros schema k Hk; simpl; [reflexivity | ].
  rewrite IH by (simpl in Hk; tauto).
  unfold add_field. destruct (_getKeywordByFieldType f); simpl; [ | reflexivity].
  apply get_set_ne. intros ->. simpl in Hk. tauto.
Qed.

Lemma add_fields_order fields : forall schema,
  enumeration_order (map fst (properties schema)) = true ->
  enumeration_order (map fst (properties (fold_left add_field fields schema))) = true.
Proof.
  induction fields as [ | f rest IH ]; intros schema Hord; simpl; [assumption | ].
  apply IH. unfold add_field.
  destruct (_getKeywordByFieldType f); simpl; [now apply set_order | assumption].
Qed.

Lemma add_fields_names fields : forall schema,
  NoDup (map field_name fields) ->
  (forall f, In f fields -> ~ In (field_name f) (map fst (properties schema))) ->
  filter (fun k => negb (is_index k))
    (map fst (properties (fold_left add_field fields schema)))
  = (filter (fun k => negb (is_index k)) (map fst (properties schema))
       ++ filter (fun k => negb (is_index k) && negb (String.eqb k "__proto__"))
            (map field_name (filter has_keywords fields)))%list.
Proof.
  induction fields as [ | f rest IH ]; intros schema Hnd Hfresh; simpl.
  - now rewrite app_nil_r.
  - inversion Hnd as [ | ? ? Hnotin Hrest ]; subst.
    assert (Hnew : get (field_name f) (properties schema) = None)
      by (apply get_None_keys; apply Hfresh; now left).
    unfold add_field at 2, has_keywords at 1.
    destruct (_getKeywordByFieldType f) as [keywords | ] eqn:E.
    + rewrite IH; simpl; auto.
      * rewrite set_names, Hnew, andb_true_r, <- app_assoc. f_equal.
        now destruct (negb (is_index (field_name f))
                      && negb (String.eqb (field_name f) "__proto__")).
      * intros g Hg Hin.
        assert (Hin' : In (field_name g) (map fst (properties schema))
                       \/ field_name g = field_name f).
        { unfold set in Hin. rewrite Hnew in Hin.
          destruct (String.eqb (field_name f) "__proto__"); [now left | ].
          apply define_keys in Hin. tauto. }
        destruct Hin' as [Hin' | Heq].
        -- apply (Hfresh g); [now right | assumption].
        -- apply Hnotin. rewrite <- Heq. now apply in_map.
    + apply IH; auto. intros g Hg. apply Hfresh. now right.
Qed.

(** X3: for any fields, [properties] has no duplicate key and never the
    key [__proto__], its keys come in the order JavaScript enumerates
    them (array indices first, ascending), the schema type is "object"
    and [additionalProperties] is false.  For fields with unique names,
    [properties] maps the name of each field, unless it is [__proto__],
    to the keywords [_getKeywordByFieldType] gives it (no entry when it
    gives none); its keys that are not array indices are the names of
    [required] that are neither array indices nor [__proto__], in the
    same order; and when no name is [__proto__] or an array index, the
    keys of [properties] are exactly the names listed in [required], in
    the same order. *)
Theorem schema_properties_follow_required (fields : list FieldSchemaVO) :
  let schema := json_schema_schema (getFieldsJSONSchema fields) in
  NoDup (map fst (properties schema))
  /\ get "__proto__" (properties schema) = None
  /\ enumeration_order (map fst (properties schema)) = true
  /\ schema_type schema = "object"
  /\ additionalProperties schema = false
  /\ (NoDup (map field_name fields) ->
      (forall f, In f fields -> field_name f <> "__proto__" ->
         get (field_name f) (properties schema) = _getKeywordByFieldType f)
      /\ filter (fun k => negb (is_index k)) (map fst (properties schema))
         = filter (fun k => negb (is_index k) && negb (String.eqb k "__proto__"))
             (required schema)
      /\ (Forall (fun f => field_name f <> "__proto__"
                           /\ Str.array_index (field_name f) = None) fields ->
          map fst (properties schema) = required schema)).
Proof.
  intros schema. unfold schema, getFieldsJSONSchema. simpl.
  split; [apply add_fields_NoDup; constructor | ].
  split.
  { apply get_None_keys. rewrite add_fields_properties by (simpl; tauto). simpl. tauto. }
  split; [now apply add_fields_order | ].
  split; [apply add_fields_constants | ].
  split; [apply add_fields_constants | ].
  intros Hnd. split; [ | split ].
  - intros f Hin Hproto. apply in_split in Hin. destruct Hin as [before [after ->]].
    rewrite fold_left_app. simpl.
    rewrite map_app in Hnd. simpl in Hnd.
    apply NoDup_remove_2 in Hnd.
    rewrite add_fields_get_elsewhere
      by (intros Hin; apply Hnd; apply in_or_app; now right).
    unfold add_field. destruct (_getKeywordByFieldType f); simpl.
    + now apply get_set_eq.
    + rewrite add_fields_get_elsewhere
        by (intros Hin; apply Hnd; apply in_or_app; now left).
      reflexivity.
  - rewrite add_fields_names, add_fields_required; simpl; auto.
  - intros Hnames.
    rewrite add_fields_keys_in_order, add_fields_required; simpl; auto.
Qed.

(** ** Cell values, continued *)

Ltac by_cell_type f :=
  unfold _getCellValueByFieldType, includes, existsb; cbv zeta;
  repeat match goal with
         | |- context [String.eqb (field_type f) ?c] =>
             let E := fresh "E" in
             destruct (String.eqb (field_type f) c) eqn:E;
             [ apply String.eqb_eq in E; rewrite E in *; simpl | ]
         end;
  simpl.

Lemma value_elements_ind (P : value -> Prop) :
  P VUndefined -> P VNull -> (forall b, P (VBool b)) -> (forall n, P (VNum n)) ->
  (forall s, P (VStr s)) -> (forall xs, Forall P xs -> P (VArr xs)) ->
  (forall props, P (VObj props)) ->
  forall v, P v.
Proof.
  intros Hu Hn Hb Hnum Hs Harr Hobj. fix IH 1.
  intros [ | | b | n | s | xs | props ];
    [exact Hu | exact Hn | apply Hb | apply Hnum | apply Hs | | apply Hobj].
  apply Harr. induction xs as [ | x rest IHxs ]; constructor; [apply IH | exact IHxs].
Qed.

(** [String] throws its [TypeError] exactly on the values that are not
    [convertible]. *)
Lemma ToString_cases (v : value) :
  (convertible v = true /\ exists s, ToString v = inr s)
  \/ (convertible v = false /\ ToString v = inl not_primitive).
Proof.
  induction v as [ | | b | n | s | xs IH | props ] using value_elements_ind;
    simpl; eauto.
  - induction IH as [ | x rest Hx _ IHrest ]; simpl; [eauto | ].
    assert (Hhead : (convertible x = true
                     /\ exists s, match x with
                                  | VUndefined | VNull => inr EmptyString
                                  | _ => ToString x
                                  end = inr s)
                    \/ (convertible x = false
                        /\ match x with
                           | VUndefined | VNull => inr EmptyString
                           | _ => ToString x
                           end = inl not_primitive)).
    { destruct x; simpl in *; eauto. }
    destruct Hhead as [[-> [s ->]] | [-> ->]]; simpl; [ | now right].
    destruct IHrest as [[-> [joined Hrest]] | [-> Hrest]]; [left | right]; split; auto.
    + destruct (sequence _) as [e | elements]; [discriminate | eauto].
    + destruct (sequence _) as [e | elements]; [ | discriminate].
      now injection Hrest as ->.
  - destruct (get "toString" props); eauto.
Qed.

Lemma ToString_error (v : value) (e : exn) :
  ToString v = inl e -> e = not_primitive /\ convertible v = false.
Proof.
  destruct (ToString_cases v) as [[_ [s ->]] | [Hc ->]]; [discriminate | ].
  intros [= <-]. auto.
Qed.

Lemma ToNumber_error (v : value) (e : exn) :
  ToNumber v = inl e -> e = not_primitive /\ convertible v = false.
Proof.
  destruct v as [ | | b | n | s | xs | props ]; try discriminate; unfold ToNumber.
  - destruct (ToString (VArr xs)) eqn:E; [ | discriminate].
    intros [= <-]. now apply ToString_error.
  - destruct (ToString (VObj props)) eqn:E; [ | discriminate].
    intros [= <-]. now apply ToString_error.
Qed.

Lemma ToNumber_cases (v : value) :
  (convertible v = true /\ exists n, ToNumber v = inr n)
  \/ (convertible v = false /\ ToNumber v = inl not_primitive).
Proof.
  destruct (ToString_cases v) as [[Hc [s Hs]] | [Hc Hs]]; [left | right]; split; auto.
  - destruct v; unfold ToNumber; rewrite ?Hs; eauto.
  - destruct v; try discriminate; unfold ToNumber; now rewrite Hs.
Qed.

Lemma cell_value_error (field : FieldSchemaVO) (raw : value) (e : exn) :
  _getCellValueByFieldType field raw = inl e ->
  (field_type field = "DateTime" /\ e = JsError "Invalid time value"
   /\ exists s, raw = VStr s /\ s <> EmptyString /\ new_Date s = None)
  \/ (includes string_cell_types (field_type field) = true
      /\ e = not_primitive /\ convertible raw = false)
  \/ (includes number_cell_types (field_type field) = true
      /\ e = not_primitive /\ convertible raw = false).
Proof.
  unfold string_cell_types, number_cell_types.
  by_cell_type field; try discriminate.
  1-6: destruct (ToString raw) eqn:Hconv; [ | discriminate ]; intros [= <-];
       right; left; split; [reflexivity | now apply ToString_error].
  1-4: destruct (ToNumber raw) eqn:Hconv; [ | discriminate ]; intros [= <-];
       right; right; split; [reflexivity | now apply ToNumber_error].
  - destruct raw as [ | | b | n | s | xs | ps ]; try discriminate.
    destruct (String.eqb_spec s EmptyString) as [-> | Hne]; simpl; [discriminate | ].
    destruct (new_Date s) as [t | ] eqn:Hdate; simpl; [discriminate | ].
    intros [= <-]. left. repeat split. exists s. auto.
  - destruct raw; discriminate.
Qed.

Lemma cell_value_defined (field : FieldSchemaVO) (raw : value) :
  _getCellValueByFieldType field raw <> inr VUndefined.
Proof.
  by_cell_type field; try discriminate.
  1-6: destruct (ToString raw); discriminate.
  1-4: destruct (ToNumber raw); discriminate.
  - destruct raw as [ | | b | n | s | xs | ps ]; try discriminate.
    destruct (String.eqb s EmptyString); simpl; [discriminate | ].
    destruct (new_Date s); discriminate.
  - destruct raw; discriminate.
Qed.

(** X4: [_getCellValueByFieldType] throws only the [RangeError] of a
    [DateTime] field given a non-empty string that is not a valid date,
    and the [TypeError] of [String] or [Number] on a text, [SingleSelect]
    or number field given a value that cannot be converted (an object
    with an own [toString], or an array holding one), which it does
    throw; the result is never [undefined]; a field whose type tag is
    none of those the function handles, and a [DateTime] field given
    anything but a string, yield [null]; a text, [SingleSelect], checkbox
    or number field never yields [null]. *)
Theorem cell_value_kinds (field : FieldSchemaVO) (raw : value) :
  (forall e, _getCellValueByFieldType field raw = inl e ->
     (field_type field = "DateTime" /\ e = JsError "Invalid time value"
      /\ exists s, raw = VStr s /\ s <> EmptyString /\ new_Date s = None)
     \/ (includes string_cell_types (field_type field) = true
         /\ e = not_primitive /\ convertible raw = false)
     \/ (includes number_cell_types (field_type field) = true
         /\ e = not_primitive /\ convertible raw = false))
  /\ (includes (string_cell_types ++ number_cell_types) (field_type field) = true ->
      convertible raw = false ->
      _getCellValueByFieldType field raw = inl not_primitive)
  /\ _getCellValueByFieldType field raw <> inr VUndefined
  /\ (includes cell_types (field_type field) = false ->
      _getCellValueByFieldType field raw = inr VNull)
  /\ (field_type field = "DateTime" -> (forall s, raw <> VStr s) ->
      _getCellValueByFieldType field raw = inr VNull)
  /\ (includes ("Checkbox" :: string_cell_types ++ number_cell_types)
        (field_type field) = true ->
      _getCellValueByFieldType field raw <> inr VNull).
Proof.
  split; [apply cell_value_error | ].
  split.
  { unfold string_cell_types, number_cell_types. simpl app.
    by_cell_type field; try discriminate.
    1-6: intros _ Hc; destruct (ToString_cases raw) as [[Hc' _] | [_ ->]];
         [congruence | reflexivity].
    1-4: intros _ Hc; destruct (ToNumber_cases raw) as [[Hc' _] | [_ ->]];
         [congruence | reflexivity]. }
  split; [apply cell_value_defined | ].
  split; [ | split ].
  - unfold cell_types. by_cell_type field; try discriminate. reflexivity.
  - intros Ht Hraw. unfold _getCellValueByFieldType. rewrite Ht. simpl.
    destruct raw as [ | | b | n | s | xs | ps ]; try reflexivity.
    exfalso. now apply (Hraw s).
  - unfold string_cell_types, number_cell_types. simpl app.
    by_cell_type field; try discriminate.
    1-6: destruct (ToString raw); discriminate.
    1-4: destruct (ToNumber raw); discriminate.
Qed.

Lemma add_cell_error fieldValues (fieldsSchema : list FieldSchemaVO) (e : exn) :
  fold_left (add_cell fieldValues) fieldsSchema (inl e) = inl e.
Proof. induction fieldsSchema as [ | f rest IH ]; simpl; auto. Qed.

Lemma cell_value_of_read_defined (f : FieldSchemaVO) (raw : property) :
  cell_value f raw <> inr VUndefined.
Proof.
  destruct raw as [v | m]; simpl; [apply cell_value_defined | ].
  unfold _getCellValueOfFunction.
  repeat match goal with
         | |- context [if ?c then _ else _] => destruct c
         end; discriminate.
Qed.

Lemma add_cell_cases (fieldValues cells : object) (f : FieldSchemaVO) :
  let raw := read (field_name f) fieldValues in
  (add_cell fieldValues (inr cells) f = inr cells
   /\ (raw = Value VUndefined \/ cell_value f raw = inr VNull))
  \/ (exists v, raw <> Value VUndefined /\ v <> VNull
                /\ cell_value f raw = inr v
                /\ add_cell fieldValues (inr cells) f = inr (set (field_name f) v cells))
  \/ (exists e, raw <> Value VUndefined
                /\ cell_value f raw = inl e
                /\ add_cell fieldValues (inr cells) f = inl e).
Proof.
  intros raw. unfold add_cell. fold raw.
  assert (Hcases : forall cell : result value,
            (match cell with
             | inl e => inl e
             | inr VNull => inr cells
             | inr cellValue => inr (set (field_name f) cellValue cells)
             end = inr cells /\ cell = inr VNull)
            \/ (exists v, v <> VNull /\ cell = inr v
                          /\ match cell with
                             | inl e => inl e
                             | inr VNull => inr cells
                             | inr cellValue => inr (set (field_name f) cellValue cells)
                             end = inr (set (field_name f) v cells))
            \/ (exists e, cell = inl e
                          /\ match cell with
                             | inl e => inl e
                             | inr VNull => inr cells
                             | inr cellValue => inr (set (field_name f) cellValue cells)
                             end = inl e)).
  { intros [e | v]; [right; right; eauto | ].
    destruct v; first [ left; split; reflexivity
                      | right; left; eexists; repeat split; discriminate ]. }
  destruct raw as [v | m] eqn:Hraw.
  - destruct v; [left; split; [reflexivity | now left] | .. ];
      (destruct (Hcases (cell_value f raw)) as [[Ha Hb] | [[w [Ha [Hb Hc]]] | [e [Ha Hb]]]];
       rewrite Hraw in *;
       [ left; split; [exact Ha | now right]
       | right; left; exists w; repeat split; auto; discriminate
       | right; right; exists e; repeat split; auto; discriminate ]).
  - destruct (Hcases (cell_value f raw)) as [[Ha Hb] | [[w [Ha [Hb Hc]]] | [e [Ha Hb]]]];
      rewrite Hraw in *;
      [ left; split; [exact Ha | now right]
      | right; left; exists w; repeat split; auto; discriminate
      | right; right; exists e; repeat split; auto; discriminate ].
Qed.

Lemma convert_invariant (all : list FieldSchemaVO) (fieldValues : object) :
  forall (rest : list FieldSchemaVO) (cells0 cells : object),
    incl rest all ->
    NoDup (map fst cells0) ->
    ~ In "__proto__" (map fst cells0) ->
    (forall k v, In (k, v) cells0 -> cell_from all fieldValues k v) ->
    fold_left (add_cell fieldValues) rest (inr cells0) = inr cells ->
    NoDup (map fst cells)
    /\ ~ In "__proto__" (map fst cells)
    /\ forall k v, In (k, v) cells -> cell_from all fieldValues k v.
Proof.
  induction rest as [ | f rest IH ]; intros cells0 cells Hincl Hnd Hproto Hall;
    cbn [fold_left].
  - intros [= <-]. auto.
  - assert (Hf : In f all) by (apply Hincl; now left).
    assert (Hrest : incl rest all) by (intros g Hg; apply Hincl; now right).
    destruct (add_cell_cases fieldValues cells0 f)
      as [[-> _] | [[v [Hraw [Hnull [Hcell ->]]]] | [e [_ [_ ->]]]]].
    + now apply IH.
    + apply IH; auto using set_NoDup, set_no_proto.
      intros k w Hin. apply In_set in Hin. destruct Hin as [[-> [-> _]] | Hin]; auto.
      repeat split; auto.
      * intros ->. exact (cell_value_of_read_defined _ _ Hcell).
      * exists f. auto.
    + rewrite add_cell_error. discriminate.
Qed.

Lemma get_Some_In {A : Type} (k : string) (v : A) (o : list (string * A)) :
  get k o = Some v -> In (k, v) o.
Proof.
  induction o as [ | [k0 v0] rest IH ]; simpl; [discriminate | ].
  destruct (String.eqb_spec k0 k) as [-> | Hne].
  - intros [= ->]. now left.
  - intros Hget. right. auto.
Qed.

Lemma convert_elsewhere (fieldValues : object) (k : string) :
  forall (rest : list FieldSchemaVO) (cells0 cells : object),
    ~ In k (map field_name rest) ->
    fold_left (add_cell fieldValues) rest (inr cells0) = inr cells ->
    get k cells = get k cells0.
Proof.
  induction rest as [ | f rest IH ]; intros cells0 cells Hk; cbn [fold_left].
  - now intros [= <-].
  - simpl in Hk.
    destruct (add_cell_cases fieldValues cells0 f)
      as [[-> _] | [[v [_ [_ [_ ->]]]] | [e [_ [_ ->]]]]].
    + apply IH. tauto.
    + intros Hfold. rewrite (IH _ _ (fun Hin => Hk (or_intror Hin)) Hfold).
      apply get_set_ne. intros ->. tauto.
    + rewrite add_cell_error. discriminate.
Qed.

Lemma convert_order (fieldValues : object) :
  forall (rest : list FieldSchemaVO) (cells0 cells : object),
    enumeration_order (map fst cells0) = true ->
    fold_left (add_cell fieldValues) rest (inr cells0) = inr cells ->
    enumeration_order (map fst cells) = true.
Proof.
  induction rest as [ | f rest IH ]; intros cells0 cells Hord; cbn [fold_left].
  - now intros [= <-].
  - destruct (add_cell_cases fieldValues cells0 f)
      as [[-> _] | [[v [_ [_ [_ ->]]]] | [e [_ [_ ->]]]]].
    + now apply IH.
    + apply IH. now apply set_order.
    + rewrite add_cell_error. discriminate.
Qed.

Lemma convert_error (fieldValues : object) :
  forall (fieldsSchema : list FieldSchemaVO) (cells0 : object) (e : exn),
    fold_left (add_cell fieldValues) fieldsSchema (inr cells0) = inl e ->
    exists f raw, In f fieldsSchema
                  /\ read (field_name f) fieldValues = Value raw
                  /\ _getCellValueByFieldType f raw = inl e.
Proof.
  induction fieldsSchema as [ | f rest IH ]; intros cells0 e; cbn [fold_left];
    [discriminate | ].
  destruct (add_cell_cases fieldValues cells0 f)
    as [[-> _] | [[v [_ [_ [_ ->]]]] | [e' [_ [Hcell ->]]]]].
  - intros Hfold. destruct (IH _ _ Hfold) as [g [raw [Hg Hcell]]].
    exists g, raw. split; [now right | assumption].
  - intros Hfold. destruct (IH _ _ Hfold) as [g [raw [Hg Hcell]]].
    exists g, raw. split; [now right | assumption].
  - rewrite add_cell_error. intros [= <-].
    destruct (read (field_name f) fieldValues) as [raw | m] eqn:Hread; [ | discriminate].
    exists f, raw. split; [now left | auto].
Qed.

(** X5: when [convertFieldValuesToCellFormat] returns cells, their keys
    are distinct and in the order JavaScript enumerates them, and every
    cell is the value [_getCellValueByFieldType] gives some schema field
    of that name for what [fieldValues] reads as under that name; no cell
    is [null] or [undefined]; a name under which
    [fieldValues] reads as [undefined] (no own key, and not a name of
    [Object.prototype]), a name that is no schema field, and the name
    [__proto__] get no cell (a partial update, not a reset).  With unique
    field names the cells are exactly those: a field gets the cell of its
    value whenever that is not [null]. *)
Theorem converted_cells (fieldsSchema : list FieldSchemaVO) (fieldValues cells : object) :
  convertFieldValuesToCellFormat fieldsSchema fieldValues = inr cells ->
  NoDup (map fst cells)
  /\ enumeration_order (map fst cells) = true
  /\ (forall k v, In (k, v) cells -> cell_from fieldsSchema fieldValues k v)
  /\ (forall k, read k fieldValues = Value VUndefined -> get k cells = None)
  /\ (forall k, ~ In k (map field_name fieldsSchema) -> get k cells = None)
  /\ get "__proto__" cells = None
  /\ (NoDup (map field_name fieldsSchema) ->
      forall f v, In f fieldsSchema -> field_name f <> "__proto__" ->
        read (field_name f) fieldValues <> Value VUndefined ->
        cell_value f (read (field_name f) fieldValues) = inr v -> v <> VNull ->
        get (field_name f) cells = Some v).
Proof.
  intros Hconv.
  destruct (convert_invariant fieldsSchema fieldValues fieldsSchema [] cells)
    as [Hnd [Hproto Hcells]]; auto using incl_refl.
  { constructor. }
  { intros k v []. }
  split; [exact Hnd | ].
  split; [exact (convert_order fieldValues fieldsSchema [] cells eq_refl Hconv) | ].
  split; [exact Hcells | ]. split; [ | split; [ | split ] ].
  - intros k Hk. destruct (get k cells) as [v | ] eqn:Hget; [ | reflexivity].
    apply get_Some_In, Hcells in Hget. destruct Hget as [_ [_ [Hdef _]]]. contradiction.
  - intros k Hk. destruct (get k cells) as [v | ] eqn:Hget; [ | reflexivity].
    apply get_Some_In, Hcells in Hget.
    destruct Hget as [_ [_ [_ [f [Hin [Hname _]]]]]].
    exfalso. apply Hk. rewrite <- Hname. now apply in_map.
  - now apply get_None_keys.
  - intros Hnames f v Hin Hname Hread Hcell Hnull.
    apply in_split in Hin. destruct Hin as [before [after ->]].
    unfold convertFieldValuesToCellFormat in Hconv.
    rewrite fold_left_app in Hconv. cbn [fold_left] in Hconv.
    rewrite map_app in Hnames. simpl in Hnames. apply NoDup_remove_2 in Hnames.
    destruct (fold_left (add_cell fieldValues) before (inr [])) as [e | cells0];
      [ cbn [add_cell] in Hconv; rewrite add_cell_error in Hconv; discriminate | ].
    destruct (add_cell_cases fieldValues cells0 f)
      as [[_ [Hu | Hn]] | [[w [_ [_ [Hw Hadd]]]] | [e [_ [_ Hadd]]]]].
    + contradiction.
    + congruence.
    + rewrite Hadd in Hconv.
      assert (Hafter : ~ In (field_name f) (map field_name after))
        by (intros Hafter; apply Hnames; apply in_or_app; now right).
      rewrite (convert_elsewhere fieldValues (field_name f) after _ cells Hafter Hconv).
      rewrite get_set_eq by exact Hname. congruence.
    + rewrite Hadd, add_cell_error in Hconv. discriminate.
Qed.

(** X6: [convertFieldValuesToCellFormat] fails only on a schema field
    under whose name [fieldValues] has a value that field's type cannot
    take: with the [RangeError] "Invalid time value" for a [DateTime]
    field and a non-empty string that is not a valid date, or with the
    [TypeError] of [String] or [Number] for a text, [SingleSelect] or
    number field and a value that cannot be converted (an object with an
    own [toString], or an array holding one). *)
Theorem conversion_fails_only_on_bad_values (fieldsSchema : list FieldSchemaVO)
    (fieldValues : object) (e : exn) :
  convertFieldValuesToCellFormat fieldsSchema fieldValues = inl e ->
  exists f raw,
    In f fieldsSchema /\ read (field_name f) fieldValues = Value raw
    /\ _getCellValueByFieldType f raw = inl e
    /\ ((e = JsError "Invalid time value" /\ field_type f = "DateTime"
         /\ exists s, raw = VStr s /\ s <> EmptyString /\ new_Date s = None)
        \/ (e = not_primitive
            /\ includes (string_cell_types ++ number_cell_types) (field_type f) = true
            /\ convertible raw = false)).
Proof.
  intros Hconv. apply convert_error in Hconv.
  destruct Hconv as [f [raw [Hin [Hread Hcell]]]].
  exists f, raw. repeat (split; [assumption | ]).
  destruct (cell_value_error _ _ _ Hcell)
    as [[Ht [-> Hs]] | [[Ht [-> Hc]] | [Ht [-> Hc]]]].
  - left. auto.
  - right. repeat split; auto.
    unfold includes in *. rewrite existsb_app, Ht. reflexivity.
  - right. repeat split; auto.
    unfold includes in *. rewrite existsb_app, Ht. apply orb_true_r.
Qed.

(** ** Query strings, continued *)

Lemma first_missing (params : object) (required : list string) :
  match find (missing_param params) required with
  | Some p =>
      exists before after,
        required = (before ++ p :: after)%list
        /\ Forall (fun q => missing_param params q = false) before
        /\ missing_param params p = true
  | None => Forall (fun q => missing_param params q = false) required
  end.
Proof.
  induction required as [ | q rest IH ]; simpl; [constructor | ].
  destruct (missing_param params q) eqn:E.
  - exists [], rest. repeat split; auto.
  - destruct (find (missing_param params) rest) as [p | ].
    + destruct IH as [before [after [-> [Hbefore Hp]]]].
      exists (q :: before), after. repeat split; auto.
    + constructor; auto.
Qed.

(** X7: [buildQueryString] with required names either throws, naming the
    first required name under which [params] reads as [undefined], [null]
    or the empty string, or, when there is no such name, returns what it
    returns without required names.  A required name that is not a key of
    [params] is missing, unless it is a name of [Object.prototype], whose
    member the read finds. *)
Theorem required_params_are_checked (params : object) (required : list string) :
  match buildQueryString params required with
  | inl e =>
      exists before p after,
        required = (before ++ p :: after)%list
        /\ Forall (fun q => missing_param params q = false) before
        /\ missing_param params p = true
        /\ e = JsError ("Query parameter '" ++ p ++ "' is required.")
  | inr s =>
      Forall (fun q => missing_param params q = false) required
      /\ buildQueryString params [] = inr s
  end
  /\ (forall p, missing_param params p = true
                <-> read p params = Value VUndefined \/ read p params = Value VNull
                    \/ read p params = Value (VStr EmptyString))
  /\ (forall p, get p params = None -> missing_param params p = negb (inherited p)).
Proof.
  split; [ | split ].
  - pose proof (first_missing params required) as Hfirst.
    unfold buildQueryString. simpl.
    destruct (find (missing_param params) required) as [p | ].
    + destruct Hfirst as [before [after [Hreq [Hbefore Hp]]]].
      exists before, p, after. auto.
    + split; [exact Hfirst | reflexivity].
  - intros p. unfold missing_param.
    destruct (read p params) as [[ | | b | n | s | xs | ps ] | m];
      try (split; [discriminate | intros [Hr | [Hr | Hr]]; discriminate]);
      try (split; auto; fail).
    split.
    + intros Hs. apply String.eqb_eq in Hs. subst. auto.
    + intros [Hr | [Hr | Hr]]; try discriminate. now injection Hr as ->.
  - intros p Hget. unfold missing_param, read, inherited. rewrite Hget.
    destruct (String.eqb p "__proto__"); [reflexivity | ].
    destruct (existsb (String.eqb p) Object_prototype_functions); reflexivity.
Qed.

Lemma append_assoc (a b c : string) : (a ++ b) ++ c = a ++ (b ++ c).
Proof. induction a as [ | x a IH ]; simpl; [reflexivity | now rewrite IH]. Qed.

Lemma append_nil_r (a : string) : a ++ EmptyString = a.
Proof. induction a as [ | x a IH ]; simpl; [reflexivity | now rewrite IH]. Qed.

Lemma join_app (sep : string) (l : list string) (x : string) (rest : list string) :
  Str.join sep (l ++ x :: rest)%list
  = String.concat EmptyString (map (fun y => y ++ sep) l) ++ Str.join sep (x :: rest).
Proof.
  unfold Str.join. induction l as [ | y l IH ]; [reflexivity | ].
  change ((y :: l) ++ x :: rest)%list with (y :: (l ++ x :: rest))%list.
  cbn [String.concat map].
  destruct (l ++ x :: rest)%list as [ | z tail ] eqn:E; [destruct l; discriminate | ].
  rewrite IH.
  destruct (map (fun y0 => y0 ++ sep) l) as [ | m ms ]; cbn [String.concat].
  - simpl. now rewrite append_assoc.
  - now rewrite !append_assoc.
Qed.

(** X8: whatever its arguments, [list_records] builds an endpoint (the
    query string is never refused) under [/datasheets/<node_id>/records]
    whose query is the pairs of the optional parameters that were given
    ([sort] when it is a non-empty list, [pageNum], [pageSize], and
    [fields] and [viewId] when they are not the empty string), in this
    order and each followed by an ampersand, and then
    [cellFormat=string&fieldKey=name]. *)
Theorem list_records_forces_cell_format (a : list_records_args) :
  list_records_endpoint a
  = inr ("/datasheets/" ++ lr_node_id a ++ "/records?"
           ++ String.concat EmptyString (map (fun pair => pair ++ "&") (given_pairs a))
           ++ "cellFormat=string&fieldKey=name").
Proof.
  unfold list_records_endpoint. rewrite buildQueryString_no_required.
  cbn [flat_map fst snd].
  change (query_param "cellFormat" (VStr "string")) with ["cellFormat=string"].
  change (query_param "fieldKey" (VStr "name")) with ["fieldKey=name"].
  assert (Hgiven :
    (query_param "sort" match lr_sort a with
                        | Some items => VArr (map sort_item_value items)
                        | None => VUndefined
                        end
       ++ query_param "pageNum" (value_of_number (lr_pageNum a))
       ++ query_param "pageSize" (value_of_number (lr_pageSize a))
       ++ query_param "fields" (value_of_string (lr_fields a))
       ++ query_param "viewId" (value_of_string (lr_viewId a))
       ++ ["cellFormat=string"] ++ ["fieldKey=name"] ++ [])%list
    = (given_pairs a ++ "cellFormat=string" :: ["fieldKey=name"])%list).
  { unfold given_pairs. cbv zeta. rewrite <- !app_assoc.
    f_equal; [destruct (lr_sort a) as [[ | i items] | ]; reflexivity | ].
    f_equal; [destruct (lr_pageNum a); reflexivity | ].
    f_equal; [destruct (lr_pageSize a); reflexivity | ].
    f_equal; [destruct (lr_fields a) as [[ | c s] | ]; reflexivity | ].
    destruct (lr_viewId a) as [[ | c s] | ]; reflexivity. }
  rewrite Hgiven.
  destruct (given_pairs a ++ "cellFormat=string" :: ["fieldKey=name"])%list eqn:E;
    [destruct (given_pairs a); discriminate | ].
  rewrite <- E, join_app. reflexivity.
Qed.

(** ** The actions, continued *)

(** X9: an action whose input fails its check (an empty required string,
    or neither [fields] nor [attachments_fields] for [create_record])
    returns the failure envelope with the message of that check and makes
    no call at all: the log is unchanged. *)
Theorem invalid_input_makes_no_call (i : invocation) (log : list call) (m : string) :
  validation_error i = Some m ->
  action i log = (inr (formatToolResponse (failure (VStr m)) true), log).
Proof.
  destruct i as [ | a | a | node_id | a | a ]; simpl; try discriminate;
    unfold search_nodes, search_nodes_body, list_records, list_records_body,
      get_fields_schema, get_fields_schema_body, create_record, create_record_body,
      upload_attachment_via_url, upload_attachment_via_url_body,
      try_catch, on_error, throw, ret.
  - destruct (_ || _); [ | discriminate]. now intros [= <-].
  - destruct (String.eqb _ _); [ | discriminate]. now intros [= <-].
  - destruct (String.eqb _ _); [ | discriminate]. now intros [= <-].
  - destruct (String.eqb _ _); [now intros [= <-] | ].
    destruct (cr_fields a), (cr_attachments_fields a); try discriminate.
    now intros [= <-].
  - destruct (String.eqb (ua_node_id a) _); [now intros [= <-] | ].
    destruct (String.eqb _ _); [ | discriminate]. now intros [= <-].
Qed.

Lemma guarded_body_calls (m : M CallToolResult) (log : list call)
    (P : list call -> Prop) :
  runs m log (fun _ new => P new) ->
  exists env new, try_catch m on_error log = (inr env, (log ++ new)%list) /\ P new.
Proof.
  unfold runs, try_catch, on_error, ret. intros [new [Hlog HP]].
  destruct (m log) as [[e | env] log']; simpl in *; subst log'; eauto.
Qed.

Ltac allowed :=
  unfold allowed_request, schema_request, write_request, file_request, upload_request;
  cbn [call_request];
  first [ reflexivity
        | left; reflexivity
        | right; repeat eexists; reflexivity
        | eexists; split; [eassumption | reflexivity]
        | eexists; reflexivity ].

Ltac within_calls :=
  lazymatch goal with
  | |- within _ _ =>
      split; [ cbn [app length max_calls]; lia
             | cbn [app]; repeat (constructor; [allowed | ]); constructor ]
  end.

Lemma action_body_within (i : invocation) (log : list call) :
  runs (action_body i) log (fun _ new => within i new).
Proof.
  destruct i as [ | a | a | node_id | a | a ]; simpl;
    unfold list_spaces_body, search_nodes_body, list_records_body,
      get_fields_schema_body, create_record_body, upload_attachment_via_url_body;
    repeat mstep; try within_calls.
Qed.

Lemma read_requests_are_GET (i : invocation) (r : request) :
  allowed_request i r ->
  match i with
  | CreateRecord _ | UploadAttachmentViaUrl _ => True
  | _ => req_method r = "GET"
  end.
Proof.
  destruct i as [ | a | a | node_id | a | a ]; simpl; auto.
  - now intros ->.
  - now intros [queryStr ->].
  - now intros [endpoint [_ ->]].
  - now intros ->.
Qed.

(** X10: an action makes at most one call, two for [create_record] and
    [upload_attachment_via_url], and only to its own endpoints: [GET
    /spaces], [GET /spaces/<id>/nodes...], [GET /datasheets/<id>/records...],
    [GET /v1/datasheets/<id>/fields], [POST /v1/datasheets/<id>/records]
    and, for the upload, the [GET] of the attachment URL and the [POST] to
    [/v1/datasheets/<id>/attachments]; the four read actions send nothing
    but [GET] requests. *)
Theorem actions_call_their_endpoints (i : invocation) (log : list call) :
  exists env new,
    action i log = (inr env, (log ++ new)%list)
    /\ (length new <= max_calls i)%nat
    /\ Forall (fun c => allowed_request i (call_request c)) new
    /\ match i with
       | CreateRecord _ | UploadAttachmentViaUrl _ => True
       | _ => Forall (fun c => req_method (call_request c) = "GET") new
       end.
Proof.
  rewrite action_is_guarded_body.
  destruct (guarded_body_calls _ log _ (action_body_within i log))
    as [env [new [Hrun [Hlen Hallowed]]]].
  exists env, new. split; [exact Hrun | ]. split; [exact Hlen | ].
  split; [exact Hallowed | ].
  assert (Hget : Forall (fun c => match i with
                                  | CreateRecord _ | UploadAttachmentViaUrl _ => True
                                  | _ => req_method (call_request c) = "GET"
                                  end) new).
  { eapply Forall_impl; [ | exact Hallowed].
    intros c Hc. exact (read_requests_are_GET i _ Hc). }
  destruct i; auto.
Qed.

(** ** Requests *)

Lemma get_spread {A : Type} (k : string) (b : list (string * A)) :
  forall a, get k (spread a b)
            = match get k (rev b) with Some v => Some v | None => get k a end.
Proof.
  unfold spread. induction b as [ | [k0 v0] rest IH ]; intros a; simpl; [reflexivity | ].
  rewrite IH, get_app. destruct (get k (rev rest)); [reflexivity | ]. simpl.
  destruct (String.eqb_spec k0 k) as [-> | Hne].
  - apply get_define_eq.
  - apply get_define_ne. congruence.
Qed.

Lemma get_rev_NoDup {A : Type} (k : string) (b : list (string * A)) :
  NoDup (map fst b) -> get k (rev b) = get k b.
Proof.
  induction b as [ | [k0 v0] rest IH ]; simpl; [reflexivity | ].
  intros Hnd. inversion Hnd as [ | ? ? Hnotin Hrest ]; subst.
  rewrite get_app, IH by assumption. simpl.
  destruct (String.eqb_spec k0 k) as [-> | Hne].
  - apply get_None_keys in Hnotin. now rewrite Hnotin.
  - destruct (get k rest); reflexivity.
Qed.

(** X11: the request of [fetchFromAPI] goes to the base URL followed by
    the endpoint, with the caller's method and body; its headers are the
    bearer [Authorization], [Accept] and [Content-Type] defaults merged
    with the caller's: a header the caller gives (no key twice) has the
    caller's value, any other key has the default, so [Authorization] is
    always present. *)
Theorem api_request_merges_headers (endpoint : string) (options : RequestInit) :
  let r := api_request endpoint options in
  let defaults := [ ("Authorization", "Bearer " ++ apiKey);
                    ("Accept", "application/json");
                    ("Content-Type", "application/json") ] in
  req_url r = baseUrl ++ endpoint
  /\ req_method r = init_method options
  /\ req_body r = init_body options
  /\ (forall k, get k (init_headers options) = None ->
        get k (req_headers r) = get k defaults)
  /\ (NoDup (map fst (init_headers options)) ->
      forall k v, get k (init_headers options) = Some v ->
        get k (req_headers r) = Some v)
  /\ get "Authorization" (req_headers r) <> None.
Proof.
  intros r defaults. unfold r, api_request. cbn [req_url req_method req_body req_headers].
  split; [reflexivity | ]. split; [reflexivity | ]. split; [reflexivity | ].
  fold defaults. split; [ | split ].
  - intros k Hk. rewrite get_spread.
    destruct (get k (rev (init_headers options))) as [v | ] eqn:E; [ | reflexivity].
    exfalso. apply get_Some_In in E. apply in_rev in E.
    apply get_None_keys in Hk. apply Hk.
    change k with (fst (k, v)). now apply in_map.
  - intros Hnd k v Hk. now rewrite get_spread, get_rev_NoDup, Hk.
  - rewrite get_spread.
    destruct (get "Authorization" (rev (init_headers options))); discriminate.
Qed.

(** X12: if the remote does not answer the fetch of the file with success
    (the fetch throws or the status is not ok), [uploadFileToSpace] throws
    and its only call, if any, is that fetch: nothing is posted. *)
Theorem upload_needs_the_file (node_id file_url : string) (file_name : option string)
    (log : list call) :
  answered ok (remote_file remote log (file_request file_url)) = false ->
  exists e new,
    uploadFileToSpace node_id file_url file_name log = (inl e, (log ++ new)%list)
    /\ (new = []
        \/ new = [ {| call_request := file_request file_url; call_succeeded := false |} ]).
Proof.
  intros Hfail.
  assert (Hruns : runs (uploadFileToSpace node_id file_url file_name) log
                    (fun r new =>
                       (exists e, r = inl e)
                       /\ (new = []
                           \/ new = [ {| call_request := file_request file_url;
                                         call_succeeded := false |} ]))).
  { assert (Hfetch : forall (k : Blob -> M (ResponseVO value)),
              runs (bind (_fetchFileViaURL file_url) k) (log ++ [])%list
                (fun r new =>
                   (exists e, r = inl e)
                   /\ (([] ++ new)%list = []
                       \/ ([] ++ new)%list
                          = [ {| call_request := file_request file_url;
                                 call_succeeded := false |} ]))).
    { intros k. rewrite app_nil_r. apply runs_bind. unfold _fetchFileViaURL.
      destruct (String.eqb file_url EmptyString); [apply runs_throw; simpl; eauto | ].
      apply runs_bind, runs_fetch. fold (file_request file_url).
      unfold answered in *.
      destruct (remote_file remote log (file_request file_url)) as [e | response];
        [simpl; eauto | ].
      rewrite Hfail. cbn [negb].
      apply runs_bind, runs_lift.
      destruct (text response) as [e | body_text];
        [simpl; eauto | apply runs_throw; simpl; eauto]. }
    unfold uploadFileToSpace. apply runs_bind.
    destruct file_name as [[ | c rest] | ].
    2: { apply runs_ret, Hfetch. }
    all: destruct (URL_pathname file_url);
      [ apply runs_ret, Hfetch | apply runs_throw; simpl; eauto ]. }
  destruct Hruns as [new [Hlog [[e Hres] Hnew]]].
  exists e, new. split; [ | exact Hnew].
  destruct (uploadFileToSpace node_id file_url file_name log) as [r log'].
  simpl in *. now subst.
Qed.

(** X13: when the file is fetched (a non-empty URL answered ok, whose
    body reads as a blob), [uploadFileToSpace] posts that blob as the
    form field [file] to [/v1/datasheets/<node_id>/attachments] with the
    [Authorization] header alone, under the given file name when one is
    given and not empty, otherwise under the last segment of the path of
    the URL; it returns what the API answers to that post, and has made
    exactly these two calls. *)
Theorem upload_posts_the_file (node_id file_url : string) (file_name : option string)
    (log : list call) (response : Response unit) (fileBlob : Blob) (name : string) :
  file_url <> EmptyString ->
  remote_file remote log (file_request file_url) = inr response ->
  ok response = true ->
  blob response = inr fileBlob ->
  (file_name = Some name /\ name <> EmptyString)
  \/ ((file_name = None \/ file_name = Some EmptyString)
      /\ exists pathname, URL_pathname file_url = Some pathname
                          /\ Str.pop (Str.split "/" pathname) = Some name) ->
  let fetched := {| call_request := file_request file_url; call_succeeded := true |} in
  let answer := remote_upload remote (log ++ [fetched])%list
                  (upload_request node_id fileBlob name) in
  uploadFileToSpace node_id file_url file_name log
  = (api_result answer,
     (log ++ [ fetched;
               {| call_request := upload_request node_id fileBlob name;
                  call_succeeded := answered api_succeeded answer |} ])%list).
Proof.
  intros Hurl Hfile Hok Hblob Hname fetched answer.
  assert (Hresolved :
    forall log',
      match file_name with
      | Some (String c rest) => ret (String c rest)
      | _ => match URL_pathname file_url with
             | Some pathname => ret (file_name_of_pathname pathname)
             | None => throw (JsError "Invalid URL")
             end
      end log' = (inr name, log')).
  { intros log'. destruct Hname as [[-> Hne] | [Hnone [pathname [Hpath Hpop]]]].
    - destruct name; [contradiction | reflexivity].
    - unfold file_name_of_pathname.
      destruct Hnone as [-> | ->]; rewrite Hpath, Hpop; reflexivity. }
  apply String.eqb_neq in Hurl.
  unfold uploadFileToSpace, bind at 1. rewrite Hresolved.
  unfold _fetchFileViaURL, bind, fetch, lift, ret, throw. rewrite Hurl.
  fold (file_request file_url). rewrite Hfile, Hok. cbn [negb]. rewrite Hblob.
  fold fetched. fold (upload_request node_id fileBlob name). fold answer.
  unfold api_result, answered, api_succeeded, api_error.
  rewrite <- app_assoc. cbn [app].
  destruct answer as [e | uploaded]; [reflexivity | ].
  destruct (json uploaded) as [e | responseJson]; [reflexivity | ].
  destruct (ok uploaded); reflexivity.
Qed.


(** ** Reading a query string back *)

Lemma encodeURIComponent_cons (c : ascii) (rest : string) :
  encodeURIComponent (String c rest) = encode_char c ++ encodeURIComponent rest.
Proof. reflexivity. Qed.

Lemma encode_char_decodes (c : ascii) (rest : string) :
  percent_decode (encode_char c ++ rest)
  = match percent_decode rest with
    | Some decoded => Some (String c decoded)
    | None => None
    end.
Proof.
  destruct c as [[] [] [] [] [] [] [] []].
  all: match goal with
       | |- percent_decode (encode_char ?c ++ _) = _ =>
           let e := eval vm_compute in (encode_char c) in
           change (encode_char c) with e
       end.
  all: cbn [append]; simpl; destruct (percent_decode rest); reflexivity.
Qed.

Lemma encode_char_separators (c : ascii) :
  has_char "&" (encode_char c) = false /\ has_char "=" (encode_char c) = false.
Proof. destruct c as [[] [] [] [] [] [] [] []]; split; reflexivity. Qed.

Lemma has_char_app (c : ascii) (a b : string) :
  has_char c (a ++ b) = has_char c a || has_char c b.
Proof.
  induction a as [ | x a IH ]; simpl; [reflexivity | ].
  now rewrite IH, orb_assoc.
Qed.

Lemma encoded_decodes (s : string) :
  percent_decode (encodeURIComponent s) = Some s.
Proof.
  induction s as [ | c rest IH ]; [reflexivity | ].
  now rewrite encodeURIComponent_cons, encode_char_decodes, IH.
Qed.

Lemma encoded_separators (s : string) :
  has_char "&" (encodeURIComponent s) = false
  /\ has_char "=" (encodeURIComponent s) = false.
Proof.
  induction s as [ | c rest [IHamp IHeq] ]; [split; reflexivity | ].
  rewrite encodeURIComponent_cons, !has_char_app, IHamp, IHeq.
  destruct (encode_char_separators c) as [-> ->]. split; reflexivity.
Qed.

Lemma cut_pair_app (k v : string) :
  has_char "=" k = false -> cut_pair (k ++ String "=" v) = Some (k, v).
Proof.
  induction k as [ | c k IH ]; simpl; [reflexivity | ].
  intros Hk. apply orb_false_iff in Hk. destruct Hk as [Hc Hk].
  now rewrite Hc, IH.
Qed.

Lemma split_whole (sep : ascii) (s : string) :
  has_char sep s = false -> Str.split sep s = [s].
Proof.
  induction s as [ | c s IH ]; simpl; [reflexivity | ].
  intros Hs. apply orb_false_iff in Hs. destruct Hs as [Hc Hs].
  now rewrite Hc, IH.
Qed.

Lemma split_app (sep : ascii) (a b : string) :
  has_char sep a = false ->
  Str.split sep (a ++ String sep b) = a :: Str.split sep b.
Proof.
  induction a as [ | c a IH ]; simpl.
  - now rewrite Ascii.eqb_refl.
  - intros Ha. apply orb_false_iff in Ha. destruct Ha as [Hc Ha].
    now rewrite Hc, IH.
Qed.

Lemma split_join (sep : ascii) (x : string) (l : list string) :
  Forall (fun s => has_char sep s = false) (x :: l) ->
  Str.split sep (Str.join (Str.of_char sep) (x :: l)) = x :: l.
Proof.
  unfold Str.join. revert x. induction l as [ | y l IH ]; intros x Hall.
  - simpl. apply split_whole. now inversion Hall.
  - inversion Hall as [ | ? ? Hx Hrest ]; subst.
    change (String.concat (Str.of_char sep) (x :: y :: l))
      with (x ++ String sep (String.concat (Str.of_char sep) (y :: l))).
    rewrite split_app by assumption. now rewrite IH.
Qed.

Lemma query_pair_decodes (kv : string * value) :
  decode_pair (query_pair_of kv) = Some (fst kv, query_text (snd kv)).
Proof.
  unfold decode_pair, query_pair_of. cbn [append].
  rewrite cut_pair_app by apply encoded_separators.
  now rewrite !encoded_decodes.
Qed.

Lemma query_pair_has_no_ampersand (kv : string * value) :
  has_char "&" (query_pair_of kv) = false.
Proof.
  unfold query_pair_of. rewrite !has_char_app.
  destruct (encoded_separators (fst kv)) as [-> _].
  destruct (encoded_separators (query_text (snd kv))) as [-> _]. reflexivity.
Qed.

Lemma decode_pairs_of_pairs (kept : object) :
  decode_pairs (map query_pair_of kept)
  = Some (map (fun kv => (fst kv, query_text (snd kv))) kept).
Proof.
  induction kept as [ | kv rest IH ]; [reflexivity | ].
  cbn [map decode_pairs]. now rewrite query_pair_decodes, IH.
Qed.

(** X15: the query string [buildQueryString] returns reads back: cutting
    it after the question mark at the ampersands, each piece at its first
    equals sign, and percent-decoding both sides gives, in order, the key
    of every surviving entry with the text of its value (the JSON text of
    an array or object, the string of a scalar); no key or value can add
    or hide a parameter. *)
Theorem query_string_reads_back (params : object) :
  exists s,
    buildQueryString params [] = inr s
    /\ parse_query s
       = Some (map (fun kv => (fst kv, query_text (snd kv)))
                 (filter (fun kv => survives (snd kv)) params)).
Proof.
  rewrite buildQueryString_no_required, queryParams_are_pairs. unfold query_pairs.
  eexists. split; [reflexivity | ].
  destruct (filter (fun kv => survives (snd kv)) params) as [ | kv kept ];
    [reflexivity | ].
  cbn [map].
  change ("?" ++ Str.join "&" (query_pair_of kv :: map query_pair_of kept))
    with (String "?" (Str.join (Str.of_char "&")
                        (query_pair_of kv :: map query_pair_of kept))).
  unfold parse_query. cbv beta iota.
  rewrite split_join.
  - exact (decode_pairs_of_pairs (kv :: kept)).
  - constructor; [apply query_pair_has_no_ampersand | ].
    apply Forall_forall. intros item Hin. apply in_map_iff in Hin.
    destruct Hin as [kv' [<- _]]. apply query_pair_has_no_ampersand.
Qed.

(** X16: on valid input the endpoint of [search_nodes] always carries
    the node type, as the first parameter, and the search query after it
    exactly when one is given and not empty. *)
Theorem search_nodes_filters_by_type (node_type : string) (query : option string) :
  node_type <> EmptyString ->
  buildQueryString [("type", VStr node_type); ("query", value_of_string query)] []
  = inr ("?type=" ++ encodeURIComponent node_type
           ++ match query with
              | Some (String c rest) => "&query=" ++ encodeURIComponent (String c rest)
              | _ => EmptyString
              end).
Proof.
  intros Hne. destruct node_type as [ | t node_type ]; [contradiction | ].
  destruct query as [[ | c rest] | ]; cbn -[encodeURIComponent append];
    unfold Str.join; cbn [String.concat]; cbn [append];
    rewrite ?append_nil_r; reflexivity.
Qed.

Lemma fetchFromAPI_run {T : Type} (respond : responder (ResponseVO T))
    (endpoint : string) (options : RequestInit) (log : list call) :
  fetchFromAPI respond endpoint options log
  = (api_result (respond log (api_request endpoint options)),
     (log ++ [ {| call_request := api_request endpoint options;
                  call_succeeded :=
                    answered api_succeeded (respond log (api_request endpoint options)) |} ])
       %list).
Proof.
  unfold fetchFromAPI, bind, fetch, lift, ret, throw, api_result, answered.
  destruct (respond log (api_request endpoint options)) as [e | response]; [reflexivity | ].
  destruct (json response) as [e | responseJson]; [reflexivity | ].
  destruct (ok response); reflexivity.
Qed.

Lemma reported_failure_run {T : Type} (fallback : string)
    (answer : result (Response (ResponseVO T))) (m : string) :
  reported_failure fallback answer = Some m ->
  answered api_succeeded answer = false
  /\ match api_result answer with
     | inl e => error_message e = m
     | inr responseJson =>
         success responseJson = false /\ or_else (message responseJson) fallback = m
     end.
Proof.
  unfold reported_failure.
  destruct (api_result answer) as [e | responseJson] eqn:Hres.
  - intros [= <-]. split; [ | reflexivity].
    unfold api_result, answered, api_succeeded in *.
    destruct answer as [e' | response]; [reflexivity | ].
    destruct (json response); [now rewrite andb_false_r | ].
    destruct (ok response); [discriminate | reflexivity].
  - rewrite (api_result_answered _ _ Hres).
    destruct (success responseJson); [discriminate | ].
    intros [= <-]. auto.
Qed.

Ltac first_call Hm :=
  rewrite fetchFromAPI_run;
  apply reported_failure_run in Hm; destruct Hm as [-> Hm];
  match goal with
  | |- context [api_result ?answer] =>
      destruct (api_result answer) as [e | responseJson];
      [ subst; reflexivity | destruct Hm as [-> <-]; reflexivity ]
  end.


Lemma answered_data_run {T : Type} (shape : T -> value)
    (answer : result (Response (ResponseVO T))) (v : value) :
  answered_data shape answer = Some v ->
  answered api_succeeded answer = true
  /\ exists responseJson d,
       api_result answer = inr responseJson /\ success responseJson = true
       /\ data responseJson = Some d /\ shape d = v.
Proof.
  unfold answered_data.
  destruct (api_result answer) as [e | responseJson] eqn:Hres; [discriminate | ].
  rewrite (api_result_answered _ _ Hres).
  destruct (success responseJson) eqn:Hsuccess; [ | discriminate].
  destruct (data responseJson) as [d | ] eqn:Hdata; [ | discriminate].
  intros [= <-]. split; [reflexivity | ]. exists responseJson, d. repeat split; auto.
Qed.

Ltac read_call Hd :=
  rewrite fetchFromAPI_run;
  apply answered_data_run in Hd;
  destruct Hd as [-> [responseJson [d [-> [Hsuccess [Hdata <-]]]]]];
  cbv beta iota; rewrite Hsuccess; cbn [negb];
  unfold data_of; rewrite ?Hdata; reflexivity.


End Properties.

(** ** Date-only strings *)

Section Calendar.

Context `{JsEnv}.
Import JsDate.
Local Open Scope Z_scope.

Lemma in_range (n : nat) (z : Z) : 0 <= z < Z.of_nat n -> In z (range n).
Proof.
  intros Hz. unfold range. apply in_map_iff. exists (Z.to_nat z). split; [lia | ].
  apply in_seq. lia.
Qed.

Lemma forallb_range (n : nat) (f : Z -> bool) :
  forallb f (range n) = true -> forall z, 0 <= z < Z.of_nat n -> f z = true.
Proof.
  intros Hall z Hz. rewrite forallb_forall in Hall. apply Hall, in_range, Hz.
Qed.

Lemma era_dates_checked :
  forallb (fun yoe =>
    forallb (fun m =>
      forallb (fun d => era_date_ok yoe (m + 1) (d + 1)) (range 31)) (range 12))
    (range 400) = true.
Proof. vm_compute. reflexivity. Qed.

Lemma era_date_checked (yoe m d : Z) :
  0 <= yoe < 400 -> 1 <= m <= 12 -> 1 <= d <= days_in_month (era_year yoe m) m ->
  0 <= doe_of yoe m d < 146097 /\ civil_of_doe (doe_of yoe m d) = (yoe, m, d).
Proof.
  intros Hyoe Hm Hd.
  assert (Hd31 : d <= 31).
  { destruct Hd as [_ Hd]. unfold days_in_month in Hd.
    repeat match type of Hd with context [if ?b then _ else _] => destruct b end; lia. }
  pose proof (forallb_range 400 _ era_dates_checked yoe Hyoe) as Hmonths.
  pose proof (forallb_range 12 _ Hmonths (m - 1) ltac:(lia)) as Hdays.
  pose proof (forallb_range 31 _ Hdays (d - 1) ltac:(lia)) as Hok.
  replace (m - 1 + 1) with m in Hok by lia.
  replace (d - 1 + 1) with d in Hok by lia.
  unfold era_date_ok in Hok.
  destruct (Z.leb_spec d (days_in_month (era_year yoe m) m)) as [_ | Hgt]; [ | lia].
  cbn [negb orb] in Hok.
  destruct (civil_of_doe (doe_of yoe m d)) as [[yoe' m'] d'].
  repeat (apply andb_true_iff in Hok; destruct Hok as [Hok ?]).
  repeat split; try lia. f_equal; [f_equal | ]; lia.
Qed.

Lemma is_leap_era (era k : Z) : is_leap (era * 400 + k) = is_leap k.
Proof.
  unfold is_leap.
  replace ((era * 400 + k) mod 4) with (k mod 4) by (Z.div_mod_to_equations; lia).
  replace ((era * 400 + k) mod 100) with (k mod 100) by (Z.div_mod_to_equations; lia).
  replace ((era * 400 + k) mod 400) with (k mod 400) by (Z.div_mod_to_equations; lia).
  reflexivity.
Qed.

Lemma civil_from_days_of_doe (era doe : Z) :
  0 <= doe < 146097 ->
  civil_from_days (era * 146097 + doe - 719468)
  = let '(yoe, m, d) := civil_of_doe doe in
    (if m <=? 2 then yoe + era * 400 + 1 else yoe + era * 400, m, d).
Proof.
  intros Hdoe. unfold civil_from_days. cbv zeta.
  replace (era * 146097 + doe - 719468 + 719468) with (era * 146097 + doe) by lia.
  replace ((era * 146097 + doe) / 146097) with era by (Z.div_mod_to_equations; lia).
  replace (era * 146097 + doe - era * 146097) with doe by lia.
  reflexivity.
Qed.

Lemma civil_round_trip (y m d : Z) :
  1 <= m <= 12 -> 1 <= d <= days_in_month y m ->
  civil_from_days (days_from_civil y m d) = (y, m, d)
  /\ (y / 400 - 1) * 146097 - 719468 <= days_from_civil y m d
     < (y / 400 + 1) * 146097 - 719468.
Proof.
  intros Hm Hd.
  set (y' := if m <=? 2 then y - 1 else y).
  set (era := y' / 400). set (yoe := y' - era * 400).
  assert (Hyoe : 0 <= yoe < 400) by (unfold yoe, era; Z.div_mod_to_equations; lia).
  assert (Hy : y = era * 400 + era_year yoe m).
  { unfold era_year, yoe, y'. destruct (m <=? 2); lia. }
  assert (Hdim : days_in_month y m = days_in_month (era_year yoe m) m).
  { unfold days_in_month. rewrite Hy at 1. now rewrite is_leap_era. }
  rewrite Hdim in Hd.
  destruct (era_date_checked yoe m d Hyoe Hm Hd) as [Hdoe Hcivil].
  assert (Hdays : days_from_civil y m d = era * 146097 + doe_of yoe m d - 719468)
    by reflexivity.
  rewrite Hdays. split.
  - rewrite civil_from_days_of_doe by assumption. rewrite Hcivil.
    unfold era_year in Hy. destruct (m <=? 2); f_equal; f_equal; lia.
  - assert (y / 400 - 1 <= era <= y / 400).
    { unfold era, y'. destruct (m <=? 2); Z.div_mod_to_equations; lia. }
    nia.
Qed.

Lemma digit_char_of (c : ascii) (v : Z) :
  digit c = Some v ->
  0 <= v <= 9 /\ forall n : N, (n mod 10)%N = Z.to_N v -> Str.digit_char n = c.
Proof.
  unfold Str.digit_char.
  destruct c as [[] [] [] [] [] [] [] []]; vm_compute; intros Hv;
    try discriminate; injection Hv as <-;
    (split; [split; discriminate | intros n ->; reflexivity]).
Qed.

Lemma digit_char_at (c : ascii) (v x : Z) :
  digit c = Some v -> 0 <= x -> x mod 10 = v -> Str.digit_char (Z.to_N x) = c.
Proof.
  intros Hc Hx Hmod. destruct (digit_char_of c v Hc) as [Hv Hchar].
  apply Hchar. rewrite <- Hmod.
  rewrite Z2N.inj_mod by lia. reflexivity.
Qed.

Lemma pad2_digits (c1 c0 : ascii) (v1 v0 : Z) :
  digit c1 = Some v1 -> digit c0 = Some v0 ->
  pad 2 (10 * v1 + v0) = String c1 (String c0 EmptyString).
Proof.
  intros H1 H0.
  destruct (digit_char_of c1 v1 H1) as [Hv1 _], (digit_char_of c0 v0 H0) as [Hv0 _].
  unfold pad. cbn [Str.pad append Str.of_char].
  rewrite <- (Z2N.inj_div _ 10) by lia.
  rewrite (digit_char_at c1 v1), (digit_char_at c0 v0); auto;
    try (Z.div_mod_to_equations; lia).
Qed.

Lemma pad4_digits (c3 c2 c1 c0 : ascii) (v3 v2 v1 v0 : Z) :
  digit c3 = Some v3 -> digit c2 = Some v2 -> digit c1 = Some v1 -> digit c0 = Some v0 ->
  pad 4 (10 * (10 * (10 * v3 + v2) + v1) + v0)
  = String c3 (String c2 (String c1 (String c0 EmptyString))).
Proof.
  intros H3 H2 H1 H0.
  destruct (digit_char_of c3 v3 H3) as [Hv3 _], (digit_char_of c2 v2 H2) as [Hv2 _],
    (digit_char_of c1 v1 H1) as [Hv1 _], (digit_char_of c0 v0 H0) as [Hv0 _].
  unfold pad. cbn [Str.pad append Str.of_char].
  set (y := 10 * (10 * (10 * v3 + v2) + v1) + v0).
  assert (Hy : 0 <= y) by (unfold y; lia).
  rewrite <- !(Z2N.inj_div _ 10) by (try apply Z.div_pos; try apply Z.div_pos; lia).
  rewrite (digit_char_at c3 v3), (digit_char_at c2 v2), (digit_char_at c1 v1),
    (digit_char_at c0 v0); auto;
    unfold y; try (Z.div_mod_to_equations; lia).
Qed.

(** A date-only string reads back: [toISOString] of the time it parses to
    is the string itself followed by the UTC midnight time. *)
Lemma date_only_round_trip (s : string) (t : Z) :
  parse_date_only s = Some t ->
  toISOString t = (s ++ "T00:00:00.000Z")%string /\ Z.abs t <= maxTime.
Proof.
  unfold parse_date_only.
  do 10 (destruct s as [ | ? s ]; [discriminate | ]).
  destruct s; [ | discriminate].
  cbn [String.length Nat.eqb andb String.substring String.eqb].
  repeat match goal with
         | |- context [Ascii.eqb ?c "-"] =>
             destruct (Ascii.eqb_spec c "-"); [subst | discriminate]
         end.
  cbn [digits].
  repeat match goal with
         | |- context [digit ?c] =>
             let v := fresh "v" in let E := fresh "E" in
             destruct (digit c) as [v | ] eqn:E; [ | discriminate]
         end.
  repeat match goal with
         | |- context [10 * 0 + ?v] => replace (10 * 0 + v) with v by lia
         end.
  repeat match goal with
         | |- (if ?b then _ else _) = _ -> _ =>
             let Hvalid := fresh "Hvalid" in
             destruct b eqn:Hvalid; [ | discriminate];
             repeat (apply andb_true_iff in Hvalid; destruct Hvalid as [Hvalid ?])
         end.
  repeat match goal with H : (_ <=? _) = true |- _ => apply Z.leb_le in H end.
  intros Ht.
  assert (Hinj : forall x z : Z, Some x = Some z -> x = z) by (now intros x z [= ->]).
  apply Hinj in Ht. clear Hinj. subst t.
  repeat match goal with
         | E : digit _ = Some _ |- _ =>
             let Hb := fresh "Hb" in
             pose proof (proj1 (digit_char_of _ _ E)) as Hb; revert E
         end.
  intros.
  match goal with
  | |- context [days_from_civil ?y ?m ?d] =>
      destruct (civil_round_trip y m d) as [Hcivil Hbound]; [lia | lia | ];
      assert (Hy : 0 <= y <= 9999) by lia;
      assert (Hera : 0 <= y / 400 <= 24) by (clear - Hy; Z.div_mod_to_equations; lia)
  end.
  split.
  - unfold toISOString, msPerDay. rewrite Z.div_mul, Z.mod_mul by discriminate.
    rewrite Hcivil.
    match goal with
    | |- context [(0 <=? ?y) && (?y <=? 9999)] =>
        replace ((0 <=? y) && (y <=? 9999)) with true
          by (symmetry; apply andb_true_iff; split; apply Z.leb_le; lia)
    end.
    erewrite pad4_digits, !pad2_digits by eassumption.
    reflexivity.
  - unfold maxTime, msPerDay. lia.
Qed.

(** X19: a [DateTime] field given a valid date-only string [YYYY-MM-DD]
    (month 01 to 12, a day that exists in that month) yields that same
    date at UTC midnight: the string followed by [T00:00:00.000Z]; the day
    is never shifted. *)
Theorem date_only_cell (n : string) (p : option FieldProperty) (s : string) (t : Z) :
  parse_date_only s = Some t ->
  _getCellValueByFieldType
    {| field_name := n; field_type := "DateTime"; field_property := p |} (VStr s)
  = inr (VStr (s ++ "T00:00:00.000Z")%string).
Proof.
  intros Hparse. destruct (date_only_round_trip s t Hparse) as [Hiso Hmax].
  unfold _getCellValueByFieldType. cbn [field_type].
  destruct s as [ | c rest ]; [discriminate | ].
  cbn -[parse_date_only toISOString append Z.leb Z.abs maxTime].
  unfold new_Date, Date_parse. rewrite Hparse.
  apply Z.leb_le in Hmax. rewrite Hmax. cbn [Date_toISOString]. now rewrite Hiso.
Qed.

End Calendar.

Import Reference.

(** ** Runs of the model *)

Example list_records_endpoint_run :
  list_records_endpoint
    {| lr_node_id := "dst1"; lr_sort := Some [ {| sort_field := "a b"; sort_order_of := desc |} ];
       lr_pageNum := Some (Some 2%Z); lr_pageSize := None; lr_fields := Some "";
       lr_viewId := None; lr_filterByFormula := Some "{a}=1" |}
  = inr "/datasheets/dst1/records?sort=%5B%7B%22field%22%3A%22a%20b%22%2C%22order%22%3A%22desc%22%7D%5D&pageNum=2&cellFormat=string&fieldKey=name".
Proof. reflexivity. Qed.

Example search_nodes_run :
  search_nodes apiKey baseUrl up
    {| sn_space_id := "spc1"; sn_node_type := "Datasheet"; sn_query := None |} []
  = (inr (formatToolResponse
            (succeeded_with
               (VArr [VObj [ ("name", VStr "Sheet A"); ("type", VStr "Datasheet");
                             ("node_id", VStr "dst1") ]])) false),
     [ {| call_request :=
            {| req_url := "https://apitable.com/fusion/spaces/spc1/nodes?type=Datasheet";
               req_method := "GET";
               req_headers := [ ("Authorization", "Bearer key");
                                ("Accept", "application/json");
                                ("Content-Type", "application/json") ];
               req_body := NoBody |};
          call_succeeded := true |} ]).
Proof. reflexivity. Qed.

(** When the schema fetch succeeds the write is issued: two calls. *)
Example create_record_run :
  map (fun c => (req_method (call_request c), req_url (call_request c)))
      (snd (create_record apiKey baseUrl up alice []))
  = [ ("GET", "https://apitable.com/fusion/v1/datasheets/dst1/fields");
      ("POST", "https://apitable.com/fusion/v1/datasheets/dst1/records") ]
  /\ fst (create_record apiKey baseUrl up alice [])
     = inr (formatToolResponse (succeeded_with (VObj [("records", created)])) false).
Proof. split; reflexivity. Qed.

(** The upload of a URL whose path is "/" posts the file under the empty
    name. *)
Example upload_run :
  map (fun c => (req_method (call_request c), req_body (call_request c)))
      (snd (uploadFileToSpace apiKey baseUrl up "dst1" "https://example.com/" None []))
  = [ ("GET", NoBody); ("POST", FormData [("file", "bytes", EmptyString)]) ].
Proof. reflexivity. Qed.

(** A field named like a member of [Object.prototype] gets a cell even
    from values that do not mention it. *)
Example inherited_name_run :
  convertFieldValuesToCellFormat
    [ {| field_name := "constructor"; field_type := "Text"; field_property := None |} ] []
  = inr [("constructor", VStr "function Object() { [native code] }")].
Proof. reflexivity. Qed.

(** A value [String] cannot convert makes the conversion throw. *)
Example unconvertible_value_run :
  convertFieldValuesToCellFormat [name_field] [("Name", VObj [("toString", VBool true)])]
  = inl (JsError "Cannot convert object to primitive value").
Proof. reflexivity. Qed.

(** Columns named by numbers come first among the keys of [properties],
    in ascending order, and a column named [__proto__] gets no key;
    [required] keeps the order of the fields. *)
Example numeric_names_run :
  let text name := {| field_name := name; field_type := "Text"; field_property := None |} in
  let schema :=
    json_schema_schema
      (getFieldsJSONSchema [text "Name"; text "2024"; text "__proto__"; text "7"; text "07"]) in
  map fst (properties schema) = ["7"; "2024"; "Name"; "07"]
  /\ required schema = ["Name"; "2024"; "__proto__"; "7"; "07"].
Proof. split; reflexivity. Qed.

(** ** The properties at concrete inputs *)

(** C2, at the field [Status] and the raw string "Red", and at the field
    [Colours] with a raw array and with a raw boolean. *)
Lemma select_cell_values_witness :
  _getCellValueByFieldType status_field (VStr "Red") = inr (VStr "Red")
  /\ _getCellValueByFieldType colours_field (VArr [VStr "Blue"; VStr "Green"])
     = inr (VArr [VStr "o2"])
  /\ _getCellValueByFieldType colours_field (VBool true) = inr VNull.
Proof.
  split; [ | split ].
  - exact (proj2 (proj1 (select_cell_values status_field (VStr "Red")) eq_refl)
             "Red" eq_refl).
  - exact (proj1 (proj1 (proj2 (select_cell_values colours_field
                                  (VArr [VStr "Blue"; VStr "Green"])) eq_refl)
                    [VStr "Blue"; VStr "Green"] eq_refl)).
  - apply (proj2 (proj2 (proj2 (select_cell_values colours_field (VBool true)) eq_refl)));
      discriminate.
Defined.

(** C2 as stated fails: a [SingleSelect] field with the option o1/Red turns
    the raw string "Red" into the name "Red", not into the id o1. *)
Lemma single_select_cell_is_the_name :
  _getCellValueByFieldType status_field (VStr "Red") = inr (VStr "Red")
  /\ _getCellValueByFieldType status_field (VStr "Red") <> inr (VStr "o1")
  /\ find_option status_field (VStr "Red")
     = Some {| option_id := "o1"; option_name := "Red" |}.
Proof. repeat split. discriminate. Qed.

(** C5, at a datasheet with a text field, a [MultiSelect] field without
    options, a formula field and a select field, and at one that also has
    an email field. *)
Lemma schema_lists_representable_fields_witness :
  let fields := [name_field; tags_field; formula_field; status_field] in
  let schema := json_schema_schema (getFieldsJSONSchema fields) in
  let mixed :=
    json_schema_schema (getFieldsJSONSchema [email_field; formula_field; name_field]) in
  required schema = ["Name"; "Status"]
  /\ map fst (properties schema) = ["Name"; "Status"]
  /\ ~ In (field_name formula_field) (required schema)
  /\ get (field_name formula_field) (properties schema) = None
  /\ ~ In (field_name formula_field) (required mixed)
  /\ get (field_name formula_field) (properties mixed) = None.
Proof.
  intros fields schema mixed.
  destruct (schema_lists_representable_fields fields) as [_ [_ [Hreq [_ [_ Hout]]]]].
  destruct (schema_lists_representable_fields [email_field; formula_field; name_field])
    as [_ [_ [_ [_ [_ Hmixed]]]]].
  split; [apply Hreq; repeat constructor; discriminate | ].
  split; [reflexivity | ].
  assert (Hformula : ~ In (field_name formula_field) (required schema)
                     /\ get (field_name formula_field) (properties schema) = None).
  { apply Hout.
    - repeat constructor; simpl; intuition discriminate.
    - simpl. tauto.
    - reflexivity.
    - discriminate. }
  split; [exact (proj1 Hformula) | ]. split; [exact (proj2 Hformula) | ].
  apply Hmixed.
  - repeat constructor; simpl; intuition discriminate.
  - simpl. tauto.
  - reflexivity.
  - discriminate.
Defined.

(** C5 as stated fails: a [MultiSelect] field without [property.options]
    has a supported type, yet [required] and [properties] leave it out. *)
Lemma multiselect_without_options_is_left_out :
  supported tags_field = true
  /\ required (json_schema_schema (getFieldsJSONSchema [tags_field])) = []
  /\ properties (json_schema_schema (getFieldsJSONSchema [tags_field])) = []
  /\ required (json_schema_schema (getFieldsJSONSchema [tags_field]))
     <> map field_name (filter supported [tags_field]).
Proof. repeat split. discriminate. Qed.

(** C6, at [list_spaces] against a remote that cannot be reached. *)
Lemma action_boundary_witness :
  exists env new,
    action apiKey baseUrl down ListSpaces [] = (inr env, ([] ++ new)%list)
    /\ (failure_envelope env \/ (success_envelope env /\ all_succeeded new))
    /\ (forall e, fst (action_body apiKey baseUrl down ListSpaces []) = inl e ->
          env = formatToolResponse (failure (VStr (error_message e))) true)
    /\ (failure_envelope env ->
          isError env = true
          /\ exists m, content env
                       = [ {| content_type := "text"; mimeType := "application/json";
                              content_text := Some (failure_text m) |} ]).
Proof. exact (action_boundary apiKey baseUrl down ListSpaces []). Defined.

(** C7, at the record of Alice against a remote that cannot be reached. *)
Lemma write_not_issued_witness :
  exists m new,
    create_record apiKey baseUrl down alice []
    = (inr (formatToolResponse (failure (VStr m)) true), ([] ++ new)%list)
    /\ (new = []
        \/ new = [ {| call_request := schema_request apiKey baseUrl (cr_node_id alice);
                      call_succeeded := false |} ]).
Proof.
  apply (write_not_issued_after_failed_schema_fetch apiKey baseUrl down alice []).
  reflexivity.
Defined.

(** C8, at the options o1/Red and o2/Blue. *)
Lemma multiselect_names_to_ids_witness :
  _getCellValueByFieldType colours_field (VArr [VStr "Red"; VStr "Green"])
  = inr (VArr [VStr "o1"])
  /\ _getCellValueByFieldType colours_field (VStr "Blue") = inr (VArr [VStr "o2"])
  /\ _getCellValueByFieldType colours_field (VStr "Green") = inr (VArr []).
Proof.
  destruct (multiselect_names_to_ids "Colours" None) as [Hexample [_ Hsingle]].
  split; [exact Hexample | ].
  split; [exact (proj1 (Hsingle colour_options "Blue"))
         | exact (proj1 (Hsingle colour_options "Green"))].
Defined.

(** C9, at the raw string of a leap day. *)
Lemma datetime_cell_values_witness :
  _getCellValueByFieldType
    {| field_name := "Due"; field_type := "DateTime"; field_property := None |}
    (VStr "2024-02-29")
  = inr (VStr "2024-02-29T00:00:00.000Z").
Proof.
  destruct (datetime_cell_values "Due" None) as [_ [_ [_ Hparsed]]].
  destruct (Hparsed "2024-02-29" 1709164800000%Z) as [Hcell _].
  - discriminate.
  - reflexivity.
  - exact Hcell.
Defined.

(** C10, at a map with a [null] entry between a kept string and a kept
    array. *)
Lemma buildQueryString_filters_witness :
  buildQueryString [("a", VStr "1"); ("b", VNull); ("sort", VArr [VStr "x"])] []
  = buildQueryString [("a", VStr "1"); ("sort", VArr [VStr "x"])] []
  /\ buildQueryString [("a", VStr "1"); ("sort", VArr [VStr "x"])] []
     = inr "?a=1&sort=%5B%22x%22%5D"
  /\ query_pairs [("a", VStr "1"); ("sort", VArr [VStr "x"])] = ["a=1"; "sort=%5B%22x%22%5D"].
Proof.
  destruct buildQueryString_filters as [_ [_ [_ [Hskip [_ [_ [Hall [Harray _]]]]]]]].
  split; [ | split ].
  - exact (Hskip [("a", VStr "1")] "b" VNull [("sort", VArr [VStr "x"])] eq_refl).
  - exact (Hall [("a", VStr "1"); ("sort", VArr [VStr "x"])]).
  - exact (Harray [("a", VStr "1")] "sort" (VStr "x") [] []).
Defined.

(** ** The further properties at concrete inputs *)

(** X1, at the node [Sheet A]. *)
Lemma node_id_is_renamed_witness :
  to_tool_node sheet_a
  = VObj [("name", VStr "Sheet A"); ("type", VStr "Datasheet"); ("node_id", VStr "dst1")]
  /\ exists props, to_tool_node sheet_a = VObj props
                   /\ get "name" props = get "name" sheet_a.
Proof.
  split; [reflexivity | ].
  destruct (node_id_is_renamed sheet_a) as [props [Hnode [_ [_ Hother]]]].
  exists props. split; [exact Hnode | ].
  apply Hother; discriminate.
Defined.

(** X2, at an attachment for a field that is not in the schema and one for
    a field that is. *)
Lemma attachments_overlay_witness :
  get "Name" (fold_left (add_attachments [("Name", photos); ("Other", photos)])
                [name_field] [("Name", VStr "Alice")])
  = Some (VArr photos)
  /\ get "Other" (fold_left (add_attachments [("Name", photos); ("Other", photos)])
                    [name_field] [("Name", VStr "Alice")])
     = None.
Proof.
  split.
  - apply (proj1 (attachments_overlay [("Name", photos); ("Other", photos)]
                    [name_field] [("Name", VStr "Alice")] "Name")).
    + simpl. tauto.
    + discriminate.
    + reflexivity.
  - apply (proj1 (proj2 (attachments_overlay [("Name", photos); ("Other", photos)]
                           [name_field] [("Name", VStr "Alice")] "Other"))).
    left. simpl. intuition discriminate.
Defined.

(** X3, at a datasheet with four fields of distinct names. *)
Lemma schema_properties_follow_required_witness :
  let schema := json_schema_schema
                  (getFieldsJSONSchema [name_field; tags_field; formula_field; status_field]) in
  map fst (properties schema) = required schema
  /\ get "Status" (properties schema) = _getKeywordByFieldType status_field
  /\ get "Total" (properties schema) = None.
Proof.
  intros schema.
  destruct (schema_properties_follow_required
              [name_field; tags_field; formula_field; status_field])
    as [_ [_ [_ [_ [_ Hunique]]]]].
  destruct Hunique as [Hget [_ Hkeys]].
  - repeat constructor; simpl; intuition discriminate.
  - split; [apply Hkeys; repeat constructor; discriminate | ]. split.
    + apply (Hget status_field); [simpl; tauto | discriminate].
    + apply (Hget formula_field); [simpl; tauto | discriminate].
Defined.

(** X4, at a formula field, at a date field given a boolean, and at a
    text field given [null] and given an object with its own [toString]. *)
Lemma cell_value_kinds_witness :
  _getCellValueByFieldType formula_field (VStr "1 + 1") = inr VNull
  /\ _getCellValueByFieldType due_field (VBool true) = inr VNull
  /\ _getCellValueByFieldType name_field VNull <> inr VNull
  /\ _getCellValueByFieldType name_field (VObj [("toString", VBool true)])
     = inl not_primitive.
Proof.
  split; [ | split; [ | split ] ].
  - apply (proj1 (proj2 (proj2 (proj2 (cell_value_kinds formula_field (VStr "1 + 1")))))).
    reflexivity.
  - apply (proj1 (proj2 (proj2 (proj2 (proj2 (cell_value_kinds due_field (VBool true))))))).
    + reflexivity.
    + discriminate.
  - apply (proj2 (proj2 (proj2 (proj2 (proj2 (cell_value_kinds name_field VNull)))))).
    reflexivity.
  - apply (proj1 (proj2 (cell_value_kinds name_field (VObj [("toString", VBool true)]))));
      reflexivity.
Defined.

(** X5, at values for a known field, an unknown one and a formula. *)
Lemma converted_cells_witness :
  let fieldValues := [("Name", VStr "Alice"); ("Total", VStr "3"); ("Ghost", VStr "x")] in
  let cells := [("Name", VStr "Alice")] in
  (forall k v, In (k, v) cells ->
     cell_from [name_field; formula_field; status_field] fieldValues k v)
  /\ get "Status" cells = None
  /\ get "Ghost" cells = None
  /\ get "Name" cells = Some (VStr "Alice").
Proof.
  intros fieldValues cells.
  destruct (converted_cells [name_field; formula_field; status_field] fieldValues cells
              eq_refl)
    as [_ [_ [Hcells [Hread [Hnames [_ Hexact]]]]]].
  split; [exact Hcells | ]. split; [ | split ].
  - apply Hread. reflexivity.
  - apply Hnames. simpl. intuition discriminate.
  - apply (Hexact ltac:(repeat constructor; simpl; intuition discriminate) name_field).
    + simpl. tauto.
    + discriminate.
    + discriminate.
    + reflexivity.
    + discriminate.
Defined.

(** X6, at a date the host cannot parse. *)
Lemma conversion_fails_only_on_bad_values_witness :
  exists f raw,
    In f [name_field; due_field]
    /\ read (field_name f) [("Name", VStr "Alice"); ("Due", VStr "soon")] = Value raw
    /\ _getCellValueByFieldType f raw = inl (JsError "Invalid time value")
    /\ ((JsError "Invalid time value" = JsError "Invalid time value"
         /\ field_type f = "DateTime"
         /\ exists s, raw = VStr s /\ s <> EmptyString /\ new_Date s = None)
        \/ (JsError "Invalid time value" = not_primitive
            /\ includes (string_cell_types ++ number_cell_types) (field_type f) = true
            /\ convertible raw = false)).
Proof.
  apply (conversion_fails_only_on_bad_values [name_field; due_field]
           [("Name", VStr "Alice"); ("Due", VStr "soon")]).
  reflexivity.
Defined.

(** X9, at a search without a space. *)
Lemma invalid_input_makes_no_call_witness :
  action apiKey baseUrl up
    (SearchNodes {| sn_space_id := ""; sn_node_type := "Datasheet"; sn_query := None |}) []
  = (inr (formatToolResponse (failure (VStr "space_id and node_type are required.")) true),
     []).
Proof.
  apply (invalid_input_makes_no_call apiKey baseUrl up
           (SearchNodes {| sn_space_id := ""; sn_node_type := "Datasheet";
                           sn_query := None |}) []).
  reflexivity.
Defined.

(** X11, at a caller that gives its own [Accept] header. *)
Lemma api_request_merges_headers_witness :
  req_headers
    (api_request apiKey baseUrl "/spaces"
       {| init_method := "GET"; init_headers := [("Accept", "text/plain")];
          init_body := NoBody |})
  = [ ("Authorization", "Bearer key"); ("Accept", "text/plain");
      ("Content-Type", "application/json") ]
  /\ get "Accept"
       (req_headers
          (api_request apiKey baseUrl "/spaces"
             {| init_method := "GET"; init_headers := [("Accept", "text/plain")];
                init_body := NoBody |}))
     = Some "text/plain".
Proof.
  split; [reflexivity | ].
  destruct (api_request_merges_headers apiKey baseUrl "/spaces"
              {| init_method := "GET"; init_headers := [("Accept", "text/plain")];
                 init_body := NoBody |})
    as [_ [_ [_ [_ [Hcaller _]]]]].
  apply Hcaller; [ | reflexivity].
  repeat constructor. simpl. tauto.
Defined.

(** X12, at a remote that cannot be reached. *)
Lemma upload_needs_the_file_witness :
  exists e new,
    uploadFileToSpace apiKey baseUrl down "dst1" "https://example.com/a.png" None []
    = (inl e, ([] ++ new)%list)
    /\ (new = []
        \/ new = [ {| call_request := file_request "https://example.com/a.png";
                      call_succeeded := false |} ]).
Proof.
  apply (upload_needs_the_file apiKey baseUrl down "dst1" "https://example.com/a.png"
           None []).
  reflexivity.
Defined.

(** X16, at a search for datasheets named like "plan b". *)
Lemma search_nodes_filters_by_type_witness :
  buildQueryString [("type", VStr "Datasheet"); ("query", value_of_string (Some "plan b"))] []
  = inr "?type=Datasheet&query=plan%20b".
Proof.
  apply (search_nodes_filters_by_type "Datasheet" (Some "plan b")). discriminate.
Defined.



(** X19, at the last day of a leap February. *)
Lemma date_only_cell_witness :
  _getCellValueByFieldType due_field (VStr "2000-02-29")
  = inr (VStr "2000-02-29T00:00:00.000Z").
Proof.
  apply (date_only_cell "Due" None "2000-02-29" 951782400000%Z). reflexivity.
Defined.

(** X13, at a URL whose path ends in [a.png], with no file name given. *)
Lemma upload_posts_the_file_witness :
  map (fun c => (req_body (call_request c), call_succeeded c))
    (snd (uploadFileToSpace apiKey baseUrl up "dst1" "https://example.com/files/a.png"
            None []))
  = [ (NoBody, true); (FormData [("file", "bytes", "a.png")], true) ].
Proof.
  rewrite (upload_posts_the_file apiKey baseUrl up "dst1" "https://example.com/files/a.png"
             None []
             {| ok := true; statusText := "OK"; json := inr tt;
                text := inr "bytes"; blob := inr "bytes" |}
             "bytes" "a.png").
  - reflexivity.
  - discriminate.
  - reflexivity.
  - reflexivity.
  - reflexivity.
  - right. split; [now left | ]. exists "/files/a.png". split; reflexivity.
Defined.

